(** * YATS2S: the labeled-data pipeline of [train_parallel_labeled_corpora.py]

    A shallow embedding of the data-pipeline functions of the training
    script (vocabulary loading, line encoding, file reading, example joining
    and batching) together with the properties stated about them.

    Conventions of the embedding:
    - a Python [str] is a [string]; its characters are code points below 256;
    - a Python [int] is a [Z]; the result of [len] is a [nat];
    - a [dict] is a [gmap]; a dict comprehension inserts its items from left
      to right, so a later item with the same key replaces an earlier one;
    - a generator over a finite file is the [list] of the items it yields,
      in the order it yields them;
    - a call that can raise returns a [result]. *)

From Stdlib Require Import ZArith Ascii String List Lia.
From stdpp Require Import base option list gmap strings fin_maps numbers.

Local Open Scope Z_scope.
Local Open Scope string_scope.
Local Open Scope list_scope.

(** ** Exceptions *)

Inductive exn : Type :=
  | ValueError   (* unpacking a sequence of the wrong size *)
  | IndexError   (* a subscript out of range *)
  | EmptyChunk.  (* the batch assembler on no sequence at all *)

Inductive result (A : Type) : Type :=
  | Ok (a : A)
  | Raise (e : exn).
Arguments Ok {A} a.
Arguments Raise {A} e.

#[global] Instance result_ret : MRet result := fun A a => Ok a.
#[global] Instance result_bind : MBind result := fun A B f m =>
  match m with
  | Ok a => f a
  | Raise e => Raise e
  end.
#[global] Instance result_fmap : FMap result := fun A B f m =>
  match m with
  | Ok a => Ok (f a)
  | Raise e => Raise e
  end.

Definition is_Ok {A} (m : result A) : Prop := ∃ a, m = Ok a.

(** ** Strings *)

Module PyStr.

(** [str.isspace] on one character, for the code points below 256. *)
Definition is_space (c : ascii) : bool :=
  let n := nat_of_ascii c in
  ((9 <=? n)%nat && (n <=? 13)%nat)
  || ((28 <=? n)%nat && (n <=? 32)%nat)
  || (n =? 133)%nat || (n =? 160)%nat.

Definition newline : ascii := ascii_of_nat 10.

(** [line.replace] of the newline character by the empty string: every
    newline character is removed. *)
Fixpoint replace_newline (line : string) : string :=
  match line with
  | EmptyString => EmptyString
  | String c rest =>
      if Ascii.eqb c newline then replace_newline rest
      else String c (replace_newline rest)
  end.

(** [line.split()]: the maximal runs of characters that are not white
    space, from left to right; [cur] is the run being read. *)
Fixpoint split_from (cur : string) (line : string) : list string :=
  match line with
  | EmptyString => if String.eqb cur EmptyString then [] else [cur]
  | String c rest =>
      if is_space c then
        if String.eqb cur EmptyString then split_from EmptyString rest
        else cur :: split_from EmptyString rest
      else split_from (cur ++ String c EmptyString) rest
  end.

Definition split (line : string) : list string := split_from EmptyString line.

(** Iterating over a [str] yields its characters, each one a [str] of
    length one. *)
Fixpoint chars (line : string) : list string :=
  match line with
  | EmptyString => []
  | String c rest => String c EmptyString :: chars rest
  end.

End PyStr.

(** ** Vocabulary loader *)

(** [enumerate(tokens)], counting from [i]. *)
Fixpoint enumerate_from {A} (i : nat) (l : list A) : list (nat * A) :=
  match l with
  | [] => []
  | x :: rest => (i, x) :: enumerate_from (S i) rest
  end.

Definition enumerate {A} (l : list A) : list (nat * A) := enumerate_from 0 l.

(** The body of the [with open(filepath)] block of [load_vocab]: [tokens]
    is the list built so far, [lines] the lines still to be read. The
    unpacking [token, freq = line.split()] raises [ValueError] unless the
    line has exactly two fields. *)
Fixpoint read_tokens (tokens : list string) (lines : list string)
  : result (list string) :=
  match lines with
  | [] => Ok tokens
  | line :: rest =>
      let line := PyStr.replace_newline line in
      match PyStr.split line with
      | [token; freq] => read_tokens (tokens ++ [token]) rest
      | _ => Raise ValueError
      end
  end.

(** [{t: i + ids_bias for i, t in enumerate(tokens)}] *)
Definition token2id_of (tokens : list string) (ids_bias : Z) : gmap string Z :=
  foldl (fun d it => <[it.2 := Z.of_nat it.1 + ids_bias]> d) ∅ (enumerate tokens).

(** [{i + ids_bias: t for i, t in enumerate(tokens)}] *)
Definition id2token_of (tokens : list string) (ids_bias : Z) : gmap Z string :=
  foldl (fun d it => <[Z.of_nat it.1 + ids_bias := it.2]> d) ∅ (enumerate tokens).

(** [load_vocab(filepath, ids_bias)], on the lines of the file at
    [filepath] as the file iterator yields them. *)
Definition load_vocab (lines : list string) (ids_bias : Z)
  : result (gmap string Z * gmap Z string) :=
  tokens ← read_tokens [] lines;
  mret (token2id_of tokens ids_bias, id2token_of tokens ids_bias).

(** ** Line encoder *)

(** What the encoder may be given as a line: a [str], which iterates over
    its characters, or a list of tokens, which iterates over its items. *)
Inductive iterable : Type :=
  | Str (s : string)
  | Tokens (ts : list string).

Definition iter (line : iterable) : list string :=
  match line with
  | Str s => PyStr.chars s
  | Tokens ts => ts
  end.

(** [vocab.get(t, unk_id)] *)
Definition dict_get (vocab : gmap string Z) (t : string) (unk_id : Z) : Z :=
  match vocab !! t with
  | Some i => i
  | None => unk_id
  end.

(** [vocab_encoder_wrapper(vocab, unk_id)] returns [line_ecoder_fn]. *)
Definition vocab_encoder_wrapper (vocab : gmap string Z) (unk_id : Z)
  : iterable → list Z :=
  fun line => map (fun t => dict_get vocab t unk_id) (iter line).

(** The default of the parameter [unk_id]. *)
Definition default_unk_id : Z := 2.

(** ** Arrays *)

(** A two-dimensional array: its shape and its cells, row by row. *)
Record ndarray : Type := mk_ndarray {
  shape : nat * nat;
  cells : list (list Z)
}.

(** [a[t, i]] *)
Definition cell (a : ndarray) (t i : nat) : option Z :=
  row ← cells a !! t; row !! i.

(** A batch as the pipeline yields it:
    [(text, text_len, label, label_len)]. *)
Definition batch : Type := ndarray * list nat * ndarray * list nat.

(** The batch dimension of the four components. *)
Definition batch_dims (b : batch) : list nat :=
  let '(text, text_len, label, label_len) := b in
  [(shape text).2; length text_len; (shape label).2; length label_len].

(** [seq[i]] on a list *)
Definition subscript {A} (l : list A) (i : nat) : result A :=
  match l !! i with
  | Some x => Ok x
  | None => Raise IndexError
  end.

Section Pipeline.

(** The constant the batch assembler pads with. *)
Variable PAD : Z.

(** The file system: the lines of the file at a path, each as the file
    iterator yields it (with its newline character, if it has one). *)
Variable fs : string → list string.

(** *** File reader *)

(** [open_file_wrapper(proc_fn)] returns [open_file_fn]. *)
Definition open_file_wrapper {A} (proc_fn : iterable → A)
  : string → list A :=
  fun filepath =>
    map (fun line => proc_fn (Str (PyStr.replace_newline line))) (fs filepath).

(** Modelled from the spec: [files_data_generator] of the package
    [rstools.utils.batch_utils], which is not part of the sources. It
    opens each file in order and yields what the opening function yields
    for it, one item per line; its batch size is not used. *)
Definition files_data_generator {A} (files : list string)
    (open_fn : string → list A) (batch_size : Z) : list A :=
  flat_map open_fn files.

(** Modelled from the spec: [merge_generators] of the package
    [rstools.utils.batch_utils], which is not part of the sources. It
    yields, for each position, the tuple of the items of all generators
    at that position, and stops when the shortest generator is
    exhausted. *)
Fixpoint merge_generators {A} (generators : list (list A)) : list (list A) :=
  match generators with
  | [] => []
  | g :: rest =>
      match rest with
      | [] => map (fun x => [x]) g
      | _ => zip_with cons g (merge_generators rest)
      end
  end.

(** *** Batch assembler *)

(** A sequence padded on the right up to [n] items. *)
Definition pad_to (n : nat) (s : list Z) : list Z :=
  s ++ replicate (n - length s) PAD.

(** Position [t] of every row. *)
Definition column (t : nat) (rows : list (list Z)) : list Z :=
  map (fun row => default PAD (row !! t)) rows.

(** The time-major layout of [n] positions of batch-major rows. *)
Definition swapaxes (n : nat) (rows : list (list Z)) : list (list Z) :=
  map (fun t => column t rows) (seq 0 n).

(** The assembler on a chunk: the sequences padded to the longest one,
    laid out time-major, and their true lengths. *)
Definition time_major (inputs : list (list Z)) : ndarray * list nat :=
  let sequence_lengths := map length inputs in
  let max_sequence_length := max_list sequence_lengths in
  let batch_major := map (pad_to max_sequence_length) inputs in
  (mk_ndarray (max_sequence_length, length inputs)
              (swapaxes max_sequence_length batch_major),
   sequence_lengths).

(** Modelled from the spec: [time_major_batch] of the module
    [seq2seq.batch_utils], which is not part of the sources. The spec
    leaves its result on an empty chunk undefined; here it raises, so
    that nothing rests on it. *)
Definition time_major_batch (inputs : list (list Z))
  : result (ndarray * list nat) :=
  match inputs with
  | [] => Raise EmptyChunk
  | _ => Ok (time_major inputs)
  end.

(** *** Labeled-data pipeline *)

Definition source_file (data_dir prefix : string) : string :=
  data_dir ++ "/" ++ prefix ++ "_sources.txt".
Definition target_file (data_dir prefix : string) : string :=
  data_dir ++ "/" ++ prefix ++ "_targets.txt".
Definition label_file (data_dir prefix : string) : string :=
  data_dir ++ "/" ++ prefix ++ "_labels.txt".

Definition files_its (data_dir : string) (text_vocab label_vocab : gmap string Z)
    (prefix : string) (batch_size : Z) : list (list (list Z)) :=
  [ files_data_generator [source_file data_dir prefix]
      (open_file_wrapper (vocab_encoder_wrapper text_vocab default_unk_id))
      batch_size;
    files_data_generator [target_file data_dir prefix]
      (open_file_wrapper (vocab_encoder_wrapper text_vocab default_unk_id))
      batch_size;
    files_data_generator [label_file data_dir prefix]
      (open_file_wrapper (vocab_encoder_wrapper label_vocab default_unk_id))
      batch_size ].

(** The two accumulators [(text_batch, label_batch)]. *)
Definition accumulators : Type := list (list Z) * list (list Z).

(** One turn of the loop of [labeled_data_generator] on [batch_row]: the
    accumulators after it and the batch it yields, if it yields one. *)
Definition loop_body (join_id batch_size : Z) (acc : accumulators)
    (batch_row : list (list Z)) : result (accumulators * list batch) :=
  let '(text_batch, label_batch) := acc in
  src ← subscript batch_row 0;
  tgt ← subscript batch_row 1;
  let text := src ++ [join_id] ++ tgt in
  label ← subscript batch_row 2;
  let text_batch := text_batch ++ [text] in
  let label_batch := label_batch ++ [label] in
  if Z.of_nat (length text_batch) >=? batch_size then
    text_out ← time_major_batch text_batch;
    label_out ← time_major_batch label_batch;
    mret (([], []), [(text_out.1, text_out.2, label_out.1, label_out.2)])
  else mret ((text_batch, label_batch), []).

(** The loop over the rows still to come: the accumulators when the rows
    are exhausted and the batches yielded on the way, in order. A run
    that raises yields [Raise]. *)
Fixpoint loop (join_id batch_size : Z) (acc : accumulators)
    (rows : list (list (list Z))) : result (accumulators * list batch) :=
  match rows with
  | [] => mret (acc, [])
  | batch_row :: rest =>
      step ← loop_body join_id batch_size acc batch_row;
      more ← loop join_id batch_size step.1 rest;
      mret (more.1, step.2 ++ more.2)
  end.

(** [labeled_data_generator(data_dir, text_vocab, label_vocab, join_id,
    prefix, batch_size)]: the batches it yields. What is left in the
    accumulators at the end is not yielded. *)
Definition labeled_data_generator (data_dir : string)
    (text_vocab label_vocab : gmap string Z) (join_id : Z)
    (prefix : string) (batch_size : Z) : result (list batch) :=
  out ← loop join_id batch_size ([], [])
          (merge_generators
             (files_its data_dir text_vocab label_vocab prefix batch_size));
  mret out.2.

End Pipeline.

(** The defaults of [join_id], [prefix] and [batch_size]. *)
Definition default_join_id : Z := 3.
Definition default_prefix : string := "train".
Definition default_batch_size : Z := 32.

(** The constants of [main]. *)
Definition main_ids_bias : Z := 4.
Definition main_label_vocab : gmap string Z := <["1" := 3]> (<["0" := 2]> ∅).

(** ** Vocabulary of the statements *)

(** The fields of a line of the vocabulary file, and the first of them. *)
Definition fields (line : string) : list string :=
  PyStr.split (PyStr.replace_newline line).

Definition first_field (line : string) : string :=
  default EmptyString (head (fields line)).

Definition well_formed (line : string) : Prop := length (fields line) = 2%nat.

#[global] Instance well_formed_dec line : Decision (well_formed line).
Proof. unfold well_formed. apply _. Defined.

(** The tokens of a vocabulary file, line by line. *)
Definition file_tokens (lines : list string) : list string :=
  map first_field lines.

(** The reading of the duplicate-token sentence under which the map from
    ids to tokens loses the id of the earlier line: whenever a token stands
    on two lines, the id of the earlier one no longer maps to it. *)
Definition id2token_later_wins (lines : list string) (ids_bias : Z) : Prop :=
  ∀ token2id id2token,
    load_vocab lines ids_bias = Ok (token2id, id2token) →
    ∀ (i j : nat) t, (i < j)%nat →
      file_tokens lines !! i = Some t → file_tokens lines !! j = Some t →
      id2token !! (Z.of_nat i + ids_bias) ≠ Some t.

(** What the file reader makes of one line under a vocabulary. *)
Definition encode_line (vocab : gmap string Z) (line : string) : list Z :=
  vocab_encoder_wrapper vocab default_unk_id (Str (PyStr.replace_newline line)).

(** A merged row is a tuple of three encoded lines. *)
Definition is_triple (batch_row : list (list Z)) : Prop :=
  length batch_row = 3%nat.

(** The joined example and the label of a merged row. *)
Definition row_text (join_id : Z) (batch_row : list (list Z)) : list Z :=
  default [] (batch_row !! 0%nat) ++ [join_id] ++ default [] (batch_row !! 1%nat).

Definition row_label (batch_row : list (list Z)) : list Z :=
  default [] (batch_row !! 2%nat).

(** The batch assembled from given joined examples and labels, and the
    batch assembled from a chunk of merged rows. *)
Definition batch_from (PAD : Z) (texts labels : list (list Z)) : batch :=
  ((time_major PAD texts).1, (time_major PAD texts).2,
   (time_major PAD labels).1, (time_major PAD labels).2).

Definition batch_of (PAD join_id : Z) (chunk : list (list (list Z))) : batch :=
  batch_from PAD (map (row_text join_id) chunk) (map row_label chunk).

(** Chunk [k] of the rows cut into chunks of [n]. *)
Definition chunk {A} (n k : nat) (rows : list A) : list A :=
  take n (drop (k * n) rows).

(** The reading of the batching sentence for every batch size: the
    generator returns, and each of the four components of each batch it
    yields has the batch size as its batch dimension. *)
Definition yields_batches_of_batch_size (PAD : Z) (fs : string → list string)
    (data_dir : string) (text_vocab label_vocab : gmap string Z) (join_id : Z)
    (prefix : string) (batch_size : Z) : Prop :=
  ∃ batches,
    labeled_data_generator PAD fs data_dir text_vocab label_vocab join_id
      prefix batch_size = Ok batches
    ∧ ∀ b, b ∈ batches → ∀ d : nat, d ∈ batch_dims b → Z.of_nat d = batch_size.

(** Sample inputs. A line of a file ends with the newline character. *)
Definition nl : string := String PyStr.newline EmptyString.

Definition sample_vocab_lines : list string :=
  ["the 10" +:+ nl; "cat 5" +:+ nl].
Definition duplicate_vocab_lines : list string :=
  ["a 1" +:+ nl; "a 2" +:+ nl].

(** File systems: one in which every file has the single line [a b], one
    in which every file has the three lines [ab], [b] and [1], and one in
    which the source, target and label files have three, two and four
    lines. *)
Definition one_line_fs : string → list string := fun _ => ["a b" +:+ nl].

Definition three_line_fs : string → list string :=
  fun _ => ["ab" +:+ nl; "b" +:+ nl; "1" +:+ nl].

Definition misaligned_fs : string → list string :=
  fun filepath =>
    if String.eqb filepath "d/train_sources.txt"
    then ["a" +:+ nl; "b" +:+ nl; "ab" +:+ nl]
    else if String.eqb filepath "d/train_targets.txt"
    then ["b" +:+ nl; "a" +:+ nl]
    else ["0" +:+ nl; "1" +:+ nl; "1" +:+ nl; "0" +:+ nl].

Definition sample_text_vocab : gmap string Z := <["b" := 5]> (<["a" := 4]> ∅).

(** ** Batch wrappers *)

Section Wrappers.

(** The constant the batch assembler pads with. *)
Variable PAD : Z.

(** Modelled from the spec: [iterate_minibatches] of the package
    [rstools.utils.batch_utils], which is not part of the sources and of
    which the spec says nothing; it is a parameter, from the indices and
    the batch size to the batches of indices it yields. *)
Variable iterate_minibatches : list Z → Z → list (list Z).

(** The two yields of one turn of the wrappers: the batch, and its mirror
    image when [double] is set. *)
Definition yield_pair (double : bool) (seq target : ndarray * list nat)
  : list batch :=
  (seq.1, seq.2, target.1, target.2)
  :: (if double then [(target.1, target.2, seq.1, seq.2)] else []).

(** [seq2seq_generator_wrapper(generator, double)]: the batches it yields.
    The unpacking [seq, target = batch] raises [ValueError] unless the
    batch has exactly two items. *)
Fixpoint seq2seq_generator_wrapper (generator : list (list (list (list Z))))
    (double : bool) : result (list batch) :=
  match generator with
  | [] => mret []
  | batch :: rest =>
      match batch with
      | [seq; target] =>
          seq_out ← time_major_batch PAD seq;
          target_out ← time_major_batch PAD target;
          more ← seq2seq_generator_wrapper rest double;
          mret (yield_pair double seq_out target_out ++ more)
      | _ => Raise ValueError
      end
  end.

(** [np.arange(n)] *)
Definition arange (n : nat) : list Z := map Z.of_nat (seq 0 n).

(** [data[i]] for an integer [i]: a negative index counts from the end. *)
Definition getitem {A} (data : list A) (i : Z) : result A :=
  if (0 <=? i)%Z then subscript data (Z.to_nat i)
  else if (0 <=? Z.of_nat (length data) + i)%Z
       then subscript data (Z.to_nat (Z.of_nat (length data) + i))
       else Raise IndexError.

(** [[data[i] for i in batch]] *)
Fixpoint gather {A} (data : list A) (batch : list Z) : result (list A) :=
  match batch with
  | [] => mret []
  | i :: rest =>
      x ← getitem data i;
      more ← gather data rest;
      mret (x :: more)
  end.

(** [zip] of the items of a batch of pairs: nothing for the empty batch,
    the firsts and the seconds otherwise. *)
Definition zip_star {A} (batch : list (A * A)) : list (list A) :=
  match batch with
  | [] => []
  | _ => [map fst batch; map snd batch]
  end.

(** The loop of [seq2seq_iter] over the batches of indices. *)
Fixpoint seq2seq_iter_loop (data : list (list Z * list Z))
    (batches : list (list Z)) (double : bool) : result (list batch) :=
  match batches with
  | [] => mret []
  | batch :: rest =>
      batch ← gather data batch;
      match zip_star batch with
      | [seq; target] =>
          seq_out ← time_major_batch PAD seq;
          target_out ← time_major_batch PAD target;
          more ← seq2seq_iter_loop data rest double;
          mret (yield_pair double seq_out target_out ++ more)
      | _ => Raise ValueError
      end
  end.

(** [seq2seq_iter(data, batch_size, double)] on a list of pairs of
    sequences. *)
Definition seq2seq_iter (data : list (list Z * list Z)) (batch_size : Z)
    (double : bool) : result (list batch) :=
  let indices := arange (length data) in
  seq2seq_iter_loop data (iterate_minibatches indices batch_size) double.

End Wrappers.

(** The sizes [main] gives the model: [len(text_vocab) + ids_bias] for the
    vocabulary and [len(label_vocab) + 2] for the label classes. *)
Definition vocab_size (text_vocab : gmap string Z) (ids_bias : Z) : Z :=
  Z.of_nat (size text_vocab) + ids_bias.

Definition n_label_classes (label_vocab : gmap string Z) : Z :=
  Z.of_nat (size label_vocab) + 2.

(** ** Further vocabulary of the statements *)

(** Every character of a string passes a test. *)
Fixpoint all_chars (P : ascii → bool) (s : string) : bool :=
  match s with
  | EmptyString => true
  | String c rest => P c && all_chars P rest
  end.

(** A field of a line: not empty and free of white space. *)
Definition clean (field : string) : Prop :=
  field ≠ EmptyString
  ∧ all_chars (fun c => negb (PyStr.is_space c)) field = true.

(** White space that is not a newline character, all along a string. *)
Definition inline_blank (s : string) : Prop :=
  all_chars (fun c => PyStr.is_space c && negb (Ascii.eqb c PyStr.newline)) s
  = true.

(** The mirror image of a batch. *)
Definition swap_batch (b : batch) : batch :=
  let '(seq, seq_len, target, target_len) := b in
  (target, target_len, seq, seq_len).

(** The chunks of merged rows the pipeline assembles its batches from:
    the full chunks of [batch_size] rows when the batch size is at least
    one, every row on its own otherwise. *)
Definition pipeline_chunks {A} (batch_size : Z) (rows : list A) : list (list A) :=
  if (1 <=? batch_size)%Z
  then map (fun k => chunk (Z.to_nat batch_size) k rows)
           (seq 0 (length rows / Z.to_nat batch_size))
  else map (fun row => [row]) rows.

(** A chunk of merged rows as a batch of the wrapper: the joined examples
    and the labels. *)
Definition chunk_pair (join_id : Z) (rows : list (list (list Z)))
  : list (list (list Z)) :=
  [map (row_text join_id) rows; map row_label rows].

(** The merged rows of the pipeline. *)
Definition merged_rows (fs : string → list string) (data_dir : string)
    (text_vocab label_vocab : gmap string Z) (prefix : string) (batch_size : Z)
  : list (list (list Z)) :=
  merge_generators (files_its fs data_dir text_vocab label_vocab prefix batch_size).

(** A batch of the wrapper made of two chunks. *)
Definition pair_batch (p : list (list Z) * list (list Z)) : list (list (list Z)) :=
  [p.1; p.2].

(** Both chunks of a pair hold a sequence. *)
Definition both_nonempty (p : list (list Z) * list (list Z)) : Prop :=
  p.1 ≠ [] ∧ p.2 ≠ [].

(** The items of [data] at the indices of a batch that are in range and
    not negative. *)
Definition pick {A} (data : list A) (batch : list Z) : list A :=
  omap (fun i => if (0 <=? i)%Z then data !! Z.to_nat i else None) batch.

(** A batch of indices that is not empty and whose indices are in range
    and not negative. *)
Definition in_range {A} (data : list A) (batch : list Z) : Prop :=
  batch ≠ [] ∧ Forall (fun i => (0 ≤ i < Z.of_nat (length data))%Z) batch.

(** The batch of the wrapper that the items of [data] at the indices of a
    batch make. *)
Definition picked_batch (data : list (list Z * list Z)) (batch : list Z)
  : list (list (list Z)) :=
  [map fst (pick data batch); map snd (pick data batch)].

(** Further sample inputs. *)
Definition sample_pairs : list (list Z * list Z) :=
  [([4; 5], [2]); ([6], [3; 3])].
Definition one_minibatch : list Z → Z → list (list Z) :=
  fun indices _ => [indices].
Definition empty_minibatch : list Z → Z → list (list Z) :=
  fun indices _ => [[]].

Definition blank_line_vocab_lines : list string :=
  ["the 10" +:+ nl; nl].
Definition long_token_vocab : gmap string Z := <["ab" := 9]> sample_text_vocab.

(** * Properties *)

(** ** The result monad *)

Lemma is_Ok_Ok {A} (a : A) : is_Ok (Ok a).
Proof. by exists a. Qed.

Lemma not_is_Ok_Raise {A} (e : exn) : ¬ is_Ok (@Raise A e).
Proof. by intros [a Ha]. Qed.

(** ** Vocabulary loader *)

Section Vocabulary.

Implicit Types (tokens lines : list string) (bias : Z).

Lemma read_tokens_well_formed tokens lines :
  Forall well_formed lines →
  read_tokens tokens lines = Ok (tokens ++ file_tokens lines).
Proof.
  intros Hwf. revert tokens.
  unfold file_tokens.
  induction Hwf as [|line lines Hline _ IH]; intros tokens; simpl.
  - by rewrite app_nil_r.
  - unfold well_formed, fields in Hline.
    unfold first_field, fields.
    destruct (PyStr.split (PyStr.replace_newline line))
      as [|token [|freq [|more rest]]]; try discriminate.
    rewrite IH. simpl. by rewrite <- app_assoc.
Qed.

Lemma read_tokens_malformed tokens lines :
  Exists (fun line => ¬ well_formed line) lines →
  read_tokens tokens lines = Raise ValueError.
Proof.
  intros Hbad. revert tokens.
  induction lines as [|line lines IH]; intros tokens.
  - by apply Exists_nil in Hbad.
  - simpl. unfold well_formed, fields in Hbad.
    destruct (PyStr.split (PyStr.replace_newline line))
      as [|token [|freq [|more rest]]] eqn:Hsplit; try done.
    apply IH. apply Exists_cons in Hbad as [Hbad|Hbad]; [|done].
    unfold fields in Hbad. rewrite Hsplit in Hbad. by destruct Hbad.
Qed.

Lemma enumerate_from_snoc {A} (k : nat) (l : list A) (x : A) :
  enumerate_from k (l ++ [x]) = enumerate_from k l ++ [((k + length l)%nat, x)].
Proof.
  revert k. induction l as [|y l IH]; intros k; simpl.
  - by rewrite Nat.add_0_r.
  - rewrite IH. by replace (S k + length l)%nat with (k + S (length l))%nat by lia.
Qed.

Lemma token2id_of_snoc tokens t bias :
  token2id_of (tokens ++ [t]) bias
  = <[t := Z.of_nat (length tokens) + bias]> (token2id_of tokens bias).
Proof.
  unfold token2id_of, enumerate.
  by rewrite enumerate_from_snoc, foldl_app.
Qed.

Lemma id2token_of_snoc tokens t bias :
  id2token_of (tokens ++ [t]) bias
  = <[Z.of_nat (length tokens) + bias := t]> (id2token_of tokens bias).
Proof.
  unfold id2token_of, enumerate.
  by rewrite enumerate_from_snoc, foldl_app.
Qed.

(** The id of a token is that of its last line. *)
Lemma token2id_of_last tokens bias (i : nat) t :
  tokens !! i = Some t →
  (∀ j : nat, (i < j)%nat → tokens !! j ≠ Some t) →
  token2id_of tokens bias !! t = Some (Z.of_nat i + bias).
Proof.
  revert i. induction tokens as [|x tokens IH] using rev_ind; intros i Hi Hlast.
  - done.
  - rewrite token2id_of_snoc.
    destruct (decide (i = length tokens)) as [->|Hne].
    + rewrite list_lookup_middle in Hi by done.
      injection Hi as ->. by rewrite lookup_insert_eq.
    + assert (i < length tokens)%nat as Hlt.
      { apply lookup_lt_Some in Hi. rewrite length_app in Hi. simpl in Hi. lia. }
      assert (x ≠ t) as Hx.
      { intros ->. apply (Hlast (length tokens) Hlt).
        by rewrite list_lookup_middle. }
      rewrite lookup_insert_ne by done.
      apply IH.
      * by rewrite lookup_app_l in Hi.
      * intros j Hj Hjt. apply (Hlast j Hj).
        apply lookup_app_l_Some. exact Hjt.
Qed.

Lemma token2id_of_Some tokens bias t id :
  token2id_of tokens bias !! t = Some id →
  ∃ i : nat, tokens !! i = Some t ∧ id = Z.of_nat i + bias.
Proof.
  induction tokens as [|x tokens IH] using rev_ind.
  - done.
  - rewrite token2id_of_snoc.
    destruct (decide (x = t)) as [->|Hne].
    + rewrite lookup_insert_eq. intros [= <-].
      exists (length tokens). by rewrite list_lookup_middle.
    + rewrite lookup_insert_ne by done. intros Hl.
      destruct (IH Hl) as (i & Hi & ->).
      exists i. split; [|done]. by apply lookup_app_l_Some.
Qed.

Lemma id2token_of_lookup tokens bias id t :
  id2token_of tokens bias !! id = Some t
  ↔ ∃ i : nat, tokens !! i = Some t ∧ id = Z.of_nat i + bias.
Proof.
  induction tokens as [|x tokens IH] using rev_ind.
  - split; [done|]. by intros (i & Hi & _).
  - rewrite id2token_of_snoc.
    destruct (decide (id = Z.of_nat (length tokens) + bias)) as [->|Hne].
    + rewrite lookup_insert_eq. split.
      * intros [= <-]. exists (length tokens). by rewrite list_lookup_middle.
      * intros (i & Hi & Heq).
        assert (i = length tokens) as -> by lia.
        rewrite list_lookup_middle in Hi by done. congruence.
    + rewrite lookup_insert_ne by done. rewrite IH. split.
      * intros (i & Hi & ->). exists i. split; [|done].
        by apply lookup_app_l_Some.
      * intros (i & Hi & ->). exists i. split; [|done].
        apply lookup_app_Some in Hi as [Hi|[Hlen Hi]]; [done|].
        apply list_lookup_singleton_Some in Hi as [Hi _].
        exfalso. apply Hne. f_equal. lia.
Qed.

End Vocabulary.

Section VocabularyClaims.

Implicit Types (lines : list string) (bias : Z).

Lemma load_vocab_well_formed lines bias :
  Forall well_formed lines →
  load_vocab lines bias
  = Ok (token2id_of (file_tokens lines) bias, id2token_of (file_tokens lines) bias).
Proof.
  intros Hwf. unfold load_vocab.
  by rewrite (read_tokens_well_formed [] lines Hwf).
Qed.

(** C4. For a vocabulary file of K well-formed lines whose tokens are
    pairwise distinct and a bias B, [load_vocab] returns two maps such
    that the token of line i has id B + i and that id maps back to it,
    the two maps are inverses of each other, and the ids of the map from
    ids to tokens are exactly those of the range from B to B + K,
    B + K excluded. *)
Theorem load_vocab_inverse lines bias :
  Forall well_formed lines →
  NoDup (file_tokens lines) →
  ∃ token2id id2token,
    load_vocab lines bias = Ok (token2id, id2token)
    ∧ (∀ (i : nat) t, file_tokens lines !! i = Some t →
         token2id !! t = Some (bias + Z.of_nat i)
         ∧ id2token !! (bias + Z.of_nat i) = Some t)
    ∧ (∀ t id, token2id !! t = Some id ↔ id2token !! id = Some t)
    ∧ (∀ id, is_Some (id2token !! id)
             ↔ bias ≤ id < bias + Z.of_nat (length lines)).
Proof.
  intros Hwf Hnd.
  eexists _, _. split; [by apply load_vocab_well_formed|].
  set (tokens := file_tokens lines) in *.
  assert (∀ (i : nat) t, tokens !! i = Some t →
            token2id_of tokens bias !! t = Some (Z.of_nat i + bias)) as Hfwd.
  { intros i t Hi. apply token2id_of_last; [done|].
    intros j Hj Hjt. pose proof (NoDup_lookup _ _ _ _ Hnd Hi Hjt). lia. }
  split; [|split].
  - intros i t Hi. rewrite (Z.add_comm bias). split; [by apply Hfwd|].
    apply id2token_of_lookup. by exists i.
  - intros t id. rewrite id2token_of_lookup. split.
    + intros Ht. by apply token2id_of_Some.
    + intros (i & Hi & ->). by apply Hfwd.
  - intros id. split.
    + intros [t Ht]. apply id2token_of_lookup in Ht as (i & Hi & ->).
      apply lookup_lt_Some in Hi. unfold tokens, file_tokens in Hi.
      rewrite length_map in Hi. lia.
    + intros Hid.
      destruct (lookup_lt_is_Some_2 tokens (Z.to_nat (id - bias))) as [t Ht].
      { unfold tokens, file_tokens. rewrite length_map. lia. }
      exists t. apply id2token_of_lookup.
      exists (Z.to_nat (id - bias)). split; [done|lia].
Qed.

Lemma load_vocab_inverse_witness :
  ∃ token2id id2token,
    load_vocab sample_vocab_lines 4 = Ok (token2id, id2token)
    ∧ token2id !! "the" = Some 4 ∧ id2token !! 5 = Some "cat"
    ∧ (∀ t id, token2id !! t = Some id ↔ id2token !! id = Some t).
Proof.
  assert (Forall well_formed sample_vocab_lines) as Hwf
    by (repeat constructor).
  assert (NoDup (file_tokens sample_vocab_lines)) as Hnd
    by (apply (bool_decide_unpack _); vm_compute; exact I).
  destruct (load_vocab_inverse sample_vocab_lines main_ids_bias Hwf Hnd)
    as (token2id & id2token & Hload & Hids & Hinv & _).
  exists token2id, id2token. split; [done|].
  split; [apply (Hids 0%nat); reflexivity|].
  split; [apply (Hids 1%nat); reflexivity|done].
Defined.

(** C7. [load_vocab] raises a parse error exactly when some line of the
    file does not split into exactly two fields, and returns its two
    maps exactly when every line does. *)
Theorem load_vocab_parse_error lines bias :
  (load_vocab lines bias = Raise ValueError
   ↔ Exists (fun line => ¬ well_formed line) lines)
  ∧ (is_Ok (load_vocab lines bias) ↔ Forall well_formed lines).
Proof.
  destruct (decide (Forall well_formed lines)) as [Hwf|Hbad].
  - rewrite (load_vocab_well_formed lines bias Hwf). split.
    + split; [done|]. intros Hex. exfalso.
      apply Exists_exists in Hex as (line & Hin & Hline).
      rewrite Forall_forall in Hwf. by apply Hline, Hwf.
    + split; [done|]. intros _. apply is_Ok_Ok.
  - pose proof (not_Forall_Exists _ _ Hbad) as Hex.
    assert (load_vocab lines bias = Raise ValueError) as Hraise.
    { unfold load_vocab. by rewrite (read_tokens_malformed [] lines Hex). }
    rewrite Hraise. split.
    + split; [by intros _|done].
    + split; [|done]. intros Hok. by apply not_is_Ok_Raise in Hok.
Qed.

(** C8, as the code has it. On a well-formed vocabulary file, with or
    without duplicate tokens, [load_vocab] returns without an error; in
    the map from tokens to ids a token has the id of its last line, so a
    later duplicate replaces the earlier id there; the map from ids to
    tokens keeps one entry for every line, the earlier ones included. *)
Theorem load_vocab_duplicates lines bias :
  Forall well_formed lines →
  ∃ token2id id2token,
    load_vocab lines bias = Ok (token2id, id2token)
    ∧ (∀ (i : nat) t, file_tokens lines !! i = Some t →
         (∀ j : nat, (i < j)%nat → file_tokens lines !! j ≠ Some t) →
         token2id !! t = Some (Z.of_nat i + bias))
    ∧ (∀ (i : nat) t, file_tokens lines !! i = Some t →
         id2token !! (Z.of_nat i + bias) = Some t).
Proof.
  intros Hwf. eexists _, _.
  split; [by apply load_vocab_well_formed|]. split.
  - intros i t Hi Hlast. by apply token2id_of_last.
  - intros i t Hi. apply id2token_of_lookup. by exists i.
Qed.

Lemma load_vocab_duplicates_witness :
  ∃ token2id id2token,
    load_vocab duplicate_vocab_lines 0 = Ok (token2id, id2token)
    ∧ token2id !! "a" = Some 1
    ∧ id2token !! 0 = Some "a" ∧ id2token !! 1 = Some "a".
Proof.
  assert (Forall well_formed duplicate_vocab_lines) as Hwf
    by (repeat constructor).
  destruct (load_vocab_duplicates duplicate_vocab_lines 0 Hwf)
    as (token2id & id2token & Hload & Ht2i & Hi2t).
  exists token2id, id2token. split; [done|]. split; [|split].
  - apply (Ht2i 1%nat); [reflexivity|].
    intros [|[|j]] Hj; [lia|lia|done].
  - apply (Hi2t 0%nat). reflexivity.
  - apply (Hi2t 1%nat). reflexivity.
Defined.

(** C8, as the sentence has it, fails: on the file of the two lines
    [a 1] and [a 2] the id 0 of the earlier line still maps to [a] in the
    map from ids to tokens. *)
Lemma id2token_later_wins_fails :
  ¬ id2token_later_wins duplicate_vocab_lines 0.
Proof.
  intros Hclaim.
  refine (Hclaim _ _ eq_refl 0%nat 1%nat "a" _ eq_refl eq_refl _); [lia|].
  by vm_compute.
Qed.

End VocabularyClaims.

(** ** Line encoder *)

Lemma map_is_fmap {A B} (f : A → B) (l : list A) : map f l = f <$> l.
Proof. reflexivity. Qed.

Lemma length_chars (s : string) : length (PyStr.chars s) = String.length s.
Proof. induction s as [|c s IH]; simpl; congruence. Qed.

Lemma lookup_chars (s : string) (i : nat) :
  PyStr.chars s !! i = (fun c => String c EmptyString) <$> String.get i s.
Proof.
  revert i. induction s as [|c s IH]; intros [|i]; simpl; done.
Qed.

Lemma lookup_encoder vocab unk_id line (i : nat) :
  vocab_encoder_wrapper vocab unk_id line !! i
  = (fun t => dict_get vocab t unk_id) <$> iter line !! i.
Proof. unfold vocab_encoder_wrapper. by rewrite map_is_fmap, list_lookup_fmap. Qed.

Section EncoderClaims.

Implicit Types (vocab : gmap string Z) (unk_id : Z) (line : iterable).

(** C5. The encoder is a function of the vocabulary, the unknown id and
    the line alone. Its output has one id per token of the line, in the
    order of the tokens: the id the vocabulary assigns to the token when
    it has one, the unknown id when it has none. The unknown id is 2
    unless the caller gives another. *)
Theorem encoder_lookup vocab unk_id line :
  length (vocab_encoder_wrapper vocab unk_id line) = length (iter line)
  ∧ (∀ (i : nat) t, iter line !! i = Some t →
       (∀ id, vocab !! t = Some id →
              vocab_encoder_wrapper vocab unk_id line !! i = Some id)
       ∧ (vocab !! t = None →
          vocab_encoder_wrapper vocab unk_id line !! i = Some unk_id))
  ∧ default_unk_id = 2.
Proof.
  split; [|split; [|done]].
  - unfold vocab_encoder_wrapper. apply length_map.
  - intros i t Hi. rewrite lookup_encoder, Hi. unfold dict_get. simpl.
    split; [intros id Hid|intros Hnone].
    + by rewrite Hid.
    + by rewrite Hnone.
Qed.

(** C10. With the label vocabulary of [main] and the default unknown id,
    a label character other than 0 and 1 encodes to the id 2, which is
    also what the label character 0 encodes to. *)
Theorem label_unknown_is_class_0 (c : ascii) :
  String c EmptyString ≠ "0" →
  String c EmptyString ≠ "1" →
  vocab_encoder_wrapper main_label_vocab default_unk_id
    (Str (String c EmptyString)) = [2]
  ∧ vocab_encoder_wrapper main_label_vocab default_unk_id (Str "0") = [2]
  ∧ vocab_encoder_wrapper main_label_vocab default_unk_id (Str "1") = [3].
Proof.
  intros H0 H1. split; [|by vm_compute].
  unfold vocab_encoder_wrapper, dict_get, main_label_vocab. simpl.
  rewrite lookup_insert_ne by done.
  rewrite lookup_insert_ne by done.
  by rewrite lookup_empty.
Qed.

Lemma label_unknown_is_class_0_witness :
  vocab_encoder_wrapper main_label_vocab default_unk_id (Str "x")
  = vocab_encoder_wrapper main_label_vocab default_unk_id (Str "0").
Proof.
  destruct (label_unknown_is_class_0 "x"%char) as (Hx & H0 & _);
    [discriminate|discriminate|].
  exact (eq_trans Hx (eq_sym H0)).
Defined.

End EncoderClaims.

(** ** Batch assembler *)

Section Assembler.

Variable PAD : Z.

Implicit Types (s row : list Z) (inputs rows : list (list Z)).

Lemma length_pad_to (n : nat) s :
  (length s ≤ n)%nat → length (pad_to PAD n s) = n.
Proof.
  intros Hle. unfold pad_to. rewrite length_app, length_replicate. lia.
Qed.

Lemma lookup_pad_to_data (n t : nat) s x :
  s !! t = Some x → pad_to PAD n s !! t = Some x.
Proof. intros Ht. unfold pad_to. by apply lookup_app_l_Some. Qed.

Lemma lookup_pad_to_padding (n t : nat) s :
  (length s ≤ t < n)%nat → pad_to PAD n s !! t = Some PAD.
Proof.
  intros [Hge Hlt]. unfold pad_to.
  rewrite lookup_app_r by done. apply lookup_replicate_2. lia.
Qed.

Lemma length_swapaxes (n : nat) rows : length (swapaxes PAD n rows) = n.
Proof. unfold swapaxes. by rewrite length_map, length_seq. Qed.

Lemma lookup_swapaxes (n t : nat) rows :
  (t < n)%nat → swapaxes PAD n rows !! t = Some (column PAD t rows).
Proof.
  intros Ht. unfold swapaxes.
  by rewrite map_is_fmap, list_lookup_fmap, lookup_seq_lt.
Qed.

Lemma swapaxes_widths (n : nat) rows :
  Forall (fun row => length row = length rows) (swapaxes PAD n rows).
Proof.
  unfold swapaxes. apply list.Forall_forall. intros row Hrow.
  rewrite map_is_fmap in Hrow.
  apply list_elem_of_fmap in Hrow as (t & -> & _).
  unfold column. apply length_map.
Qed.

(** The cell at position [t] of sequence [i] of an assembled chunk. *)
Lemma cell_time_major inputs (t i : nat) s :
  (t < max_list (map length inputs))%nat →
  inputs !! i = Some s →
  cell (time_major PAD inputs).1 t i
  = Some (default PAD (pad_to PAD (max_list (map length inputs)) s !! t)).
Proof.
  intros Ht Hi. unfold cell, time_major. simpl.
  rewrite lookup_swapaxes by done. simpl.
  unfold column. rewrite !map_is_fmap, !list_lookup_fmap, Hi. done.
Qed.

Lemma length_le_max_list inputs s :
  s ∈ inputs → (length s ≤ max_list (map length inputs))%nat.
Proof.
  intros Hs. apply max_list_elem_of_le.
  rewrite map_is_fmap. by apply list_elem_of_fmap_2.
Qed.

Lemma max_list_attained inputs :
  inputs ≠ [] → ∃ s, s ∈ inputs ∧ length s = max_list (map length inputs).
Proof.
  intros Hne.
  assert (map length inputs ≠ []) as Hne' by by destruct inputs.
  pose proof (max_list_elem_of _ Hne') as Hin.
  rewrite map_is_fmap in Hin.
  apply list_elem_of_fmap in Hin as (s & Hs & Hin).
  exists s. split; [done|]. by rewrite map_is_fmap.
Qed.

Lemma time_major_batch_nonempty inputs :
  inputs ≠ [] → time_major_batch PAD inputs = Ok (time_major PAD inputs).
Proof. by destruct inputs. Qed.

(** Column [i] of an assembled chunk and its length. *)
Lemma time_major_column inputs (i : nat) s :
  inputs !! i = Some s →
  (time_major PAD inputs).2 !! i = Some (length s)
  ∧ (∀ (t : nat) x, s !! t = Some x →
       cell (time_major PAD inputs).1 t i = Some x)
  ∧ (∀ t : nat, (length s ≤ t < max_list (map length inputs))%nat →
       cell (time_major PAD inputs).1 t i = Some PAD).
Proof.
  intros Hi.
  assert (s ∈ inputs) as Hs by (apply list_elem_of_lookup; eauto).
  pose proof (length_le_max_list inputs s Hs) as Hle.
  split; [|split].
  - simpl. by rewrite map_is_fmap, list_lookup_fmap, Hi.
  - intros t x Ht.
    rewrite (cell_time_major inputs t i s); [|apply lookup_lt_Some in Ht; lia|done].
    by rewrite (lookup_pad_to_data _ _ _ _ Ht).
  - intros t Ht.
    rewrite (cell_time_major inputs t i s); [|lia|done].
    by rewrite lookup_pad_to_padding.
Qed.

(** C2. On a chunk of N sequences, N at least one, the assembler returns
    an array of shape (m, N) and a list of N lengths, where m is the
    length of a longest sequence of the chunk; the array has m rows of N
    cells; the length at i is the true length of sequence i; column i of
    the array holds the ids of sequence i in order at the positions
    before its length, and the padding constant at the positions from its
    length on. *)
Theorem time_major_batch_layout inputs :
  inputs ≠ [] →
  ∃ (a : ndarray) (lengths : list nat) (m : nat),
    time_major_batch PAD inputs = Ok (a, lengths)
    ∧ shape a = (m, length inputs)
    ∧ (∀ s, s ∈ inputs → (length s ≤ m)%nat)
    ∧ (∃ s, s ∈ inputs ∧ length s = m)
    ∧ length (cells a) = m
    ∧ Forall (fun row => length row = length inputs) (cells a)
    ∧ length lengths = length inputs
    ∧ (∀ (i : nat) s, inputs !! i = Some s →
         lengths !! i = Some (length s)
         ∧ (∀ (t : nat) x, s !! t = Some x → cell a t i = Some x)
         ∧ (∀ t : nat, (length s ≤ t < m)%nat → cell a t i = Some PAD)).
Proof.
  intros Hne.
  exists (time_major PAD inputs).1, (time_major PAD inputs).2,
         (max_list (map length inputs)).
  split; [by rewrite time_major_batch_nonempty|].
  split; [done|].
  split; [apply length_le_max_list|].
  split; [by apply max_list_attained|].
  split; [apply length_swapaxes|].
  split.
  { simpl. pose proof (swapaxes_widths (max_list (map length inputs))
      (map (pad_to PAD (max_list (map length inputs))) inputs)) as Hw.
    by rewrite length_map in Hw. }
  split; [apply length_map|].
  apply time_major_column.
Qed.

End Assembler.

Lemma time_major_batch_layout_witness :
  ∃ (a : ndarray) (lengths : list nat),
    time_major_batch 0 [[1; 2; 3]; [4; 5; 6; 7; 8]] = Ok (a, lengths)
    ∧ shape a = (5%nat, 2%nat)
    ∧ lengths !! 0%nat = Some 3%nat ∧ lengths !! 1%nat = Some 5%nat
    ∧ cell a 2 0 = Some 3 ∧ cell a 3 0 = Some 0 ∧ cell a 4 0 = Some 0.
Proof.
  assert ([[1; 2; 3]; [4; 5; 6; 7; 8]] ≠ ([] : list (list Z))) as Hne by done.
  destruct (time_major_batch_layout 0 _ Hne)
    as (a & lengths & m & Hrun & Hshape & _ & _ & _ & _ & _ & Hcol).
  assert (m = 5%nat) as ->.
  { assert (shape a = (5%nat, 2%nat)) as Hshape' by (by injection Hrun as <- _).
    congruence. }
  exists a, lengths. split; [done|]. split; [done|].
  destruct (Hcol 0%nat [1; 2; 3] eq_refl) as (Hl0 & Hd0 & Hp0).
  destruct (Hcol 1%nat [4; 5; 6; 7; 8] eq_refl) as (Hl1 & _ & _).
  split; [done|]. split; [done|].
  split; [by apply Hd0|].
  split; apply Hp0; simpl; lia.
Defined.

(** ** File reader and merger *)

Section Reader.

Variable fs : string → list string.

Implicit Types (vocab : gmap string Z) (path : string) (batch_size : Z).

Lemma files_data_generator_single {A} path (open_fn : string → list A) batch_size :
  files_data_generator [path] open_fn batch_size = open_fn path.
Proof. unfold files_data_generator. simpl. apply app_nil_r. Qed.

(** The generator the pipeline builds for one file and one vocabulary. *)
Lemma file_generator_encodes vocab path batch_size :
  files_data_generator [path]
    (open_file_wrapper fs (vocab_encoder_wrapper vocab default_unk_id))
    batch_size
  = map (encode_line vocab) (fs path).
Proof. by rewrite files_data_generator_single. Qed.

Lemma files_its_encodes data_dir text_vocab label_vocab prefix batch_size :
  files_its fs data_dir text_vocab label_vocab prefix batch_size
  = [ map (encode_line text_vocab) (fs (source_file data_dir prefix));
      map (encode_line text_vocab) (fs (target_file data_dir prefix));
      map (encode_line label_vocab) (fs (label_file data_dir prefix)) ].
Proof. unfold files_its. by rewrite !file_generator_encodes. Qed.

(** C9. The file reader built on the encoder, as the pipeline builds it
    for each of its three files, yields for line k of the file the
    encoding of the line without its newline characters taken character
    by character: for a line of L characters it has L ids, and the id at
    position i is what the vocabulary gives for the one-character string
    of character i, white space included, or the unknown id 2 when the
    vocabulary has no such key. *)
Theorem reader_encodes_characters vocab path (k : nat) line :
  fs path !! k = Some line →
  ∃ ids,
    open_file_wrapper fs (vocab_encoder_wrapper vocab default_unk_id) path !! k
    = Some ids
    ∧ length ids = String.length (PyStr.replace_newline line)
    ∧ (∀ (i : nat) c, String.get i (PyStr.replace_newline line) = Some c →
         ids !! i = Some (dict_get vocab (String c EmptyString) 2)).
Proof.
  intros Hk. exists (encode_line vocab line).
  split; [|split].
  - unfold open_file_wrapper.
    by rewrite map_is_fmap, list_lookup_fmap, Hk.
  - unfold encode_line, vocab_encoder_wrapper.
    rewrite length_map. apply length_chars.
  - intros i c Hc. unfold encode_line.
    rewrite lookup_encoder. simpl. by rewrite lookup_chars, Hc.
Qed.

End Reader.

Lemma reader_encodes_characters_witness :
  ∃ ids,
    open_file_wrapper one_line_fs
      (vocab_encoder_wrapper sample_text_vocab default_unk_id)
      (source_file "d" "train") !! 0%nat = Some ids
    ∧ length ids = 3%nat ∧ ids !! 1%nat = Some 2.
Proof.
  destruct (reader_encodes_characters one_line_fs sample_text_vocab
              (source_file "d" "train") 0 ("a b" +:+ nl) eq_refl)
    as (ids & Hids & Hlen & Hchars).
  exists ids. split; [done|]. split; [done|].
  by rewrite (Hchars 1%nat " "%char eq_refl).
Defined.

Section Merger.

Context {A : Type}.

Implicit Types (a b c : list A).

Lemma merge_generators_three a b c :
  merge_generators [a; b; c]
  = zip_with cons a (zip_with cons b (map (fun z => [z]) c)).
Proof. reflexivity. Qed.

Lemma length_merge_generators_three a b c :
  length (merge_generators [a; b; c])
  = (length a `min` (length b `min` length c))%nat.
Proof.
  rewrite merge_generators_three.
  by rewrite !length_zip_with, length_map.
Qed.

Lemma lookup_merge_generators_three a b c (i : nat) row :
  merge_generators [a; b; c] !! i = Some row
  ↔ ∃ x y z, row = [x; y; z]
             ∧ a !! i = Some x ∧ b !! i = Some y ∧ c !! i = Some z.
Proof.
  rewrite merge_generators_three, lookup_zip_with_Some. split.
  - intros (x & r & -> & Hx & Hr).
    apply lookup_zip_with_Some in Hr as (y & r' & -> & Hy & Hr').
    rewrite map_is_fmap, list_lookup_fmap_Some in Hr'.
    destruct Hr' as (z & -> & Hz). by exists x, y, z.
  - intros (x & y & z & -> & Hx & Hy & Hz).
    exists x, [y; z]. split; [done|]. split; [done|].
    apply lookup_zip_with_Some. exists y, [z]. split; [done|]. split; [done|].
    by rewrite map_is_fmap, list_lookup_fmap, Hz.
Qed.

End Merger.

Lemma merged_rows_are_triples (a b c : list (list Z)) :
  Forall is_triple (merge_generators [a; b; c]).
Proof.
  apply Forall_lookup. intros i row Hrow.
  apply lookup_merge_generators_three in Hrow as (x & y & z & -> & _).
  done.
Qed.

Section MergerClaims.

Variable fs : string → list string.

(** C6. For source, target and label files of a, b and c lines, the
    merged generator of the pipeline yields as many rows as the smallest
    of a, b and c, and row i is the triple of the encodings of line i of
    the three files. Lines beyond the shortest file are left out and
    nothing is raised. *)
Theorem merged_rows_truncate data_dir text_vocab label_vocab prefix batch_size :
  let sources := fs (source_file data_dir prefix) in
  let targets := fs (target_file data_dir prefix) in
  let labels := fs (label_file data_dir prefix) in
  let rows :=
    merge_generators
      (files_its fs data_dir text_vocab label_vocab prefix batch_size) in
  length rows
  = (length sources `min` (length targets `min` length labels))%nat
  ∧ (∀ i : nat, (i < length rows)%nat →
       ∃ s t l,
         sources !! i = Some s ∧ targets !! i = Some t ∧ labels !! i = Some l
         ∧ rows !! i = Some [encode_line text_vocab s;
                             encode_line text_vocab t;
                             encode_line label_vocab l]).
Proof.
  intros sources targets labels rows. subst rows.
  rewrite files_its_encodes. fold sources targets labels.
  assert (length (merge_generators
            [map (encode_line text_vocab) sources;
             map (encode_line text_vocab) targets;
             map (encode_line label_vocab) labels])
          = (length sources `min` (length targets `min` length labels))%nat)
    as Hlen by (by rewrite length_merge_generators_three, !length_map).
  split; [done|].
  intros i Hi. rewrite Hlen in Hi.
  destruct (lookup_lt_is_Some_2 sources i) as [s Hs]; [lia|].
  destruct (lookup_lt_is_Some_2 targets i) as [t Ht]; [lia|].
  destruct (lookup_lt_is_Some_2 labels i) as [l Hl]; [lia|].
  exists s, t, l. split; [done|]. split; [done|]. split; [done|].
  apply lookup_merge_generators_three.
  eexists _, _, _. split; [done|].
  by rewrite !map_is_fmap, !list_lookup_fmap, Hs, Ht, Hl.
Qed.

End MergerClaims.

(** ** Labeled-data pipeline *)

Section Loop.

Variables (PAD join_id batch_size : Z).

Implicit Types (texts labels : list (list Z)) (rows : list (list (list Z))).

Local Abbreviation body := (loop_body PAD join_id batch_size).
Local Abbreviation run := (loop PAD join_id batch_size).

Lemma loop_nil acc : run acc [] = Ok (acc, []).
Proof. reflexivity. Qed.

Lemma loop_cons acc row rows :
  run acc (row :: rows)
  = step ← body acc row;
    more ← run step.1 rows;
    mret (more.1, step.2 ++ more.2).
Proof. reflexivity. Qed.

(** One turn of the loop on a triple. *)
Lemma loop_body_triple texts labels s t l :
  body (texts, labels) [s; t; l]
  = if Z.of_nat (length texts) + 1 >=? batch_size
    then Ok (([], []),
             [batch_from PAD (texts ++ [s ++ [join_id] ++ t]) (labels ++ [l])])
    else Ok ((texts ++ [s ++ [join_id] ++ t], labels ++ [l]), []).
Proof.
  unfold loop_body. simpl.
  rewrite length_app. simpl.
  replace (Z.of_nat (length texts + 1)) with (Z.of_nat (length texts) + 1) by lia.
  destruct (Z.of_nat (length texts) + 1 >=? batch_size); [|done].
  rewrite !time_major_batch_nonempty by (by intros [_ [=]]%app_eq_nil).
  done.
Qed.

Lemma loop_body_row texts labels row :
  is_triple row →
  body (texts, labels) row
  = if Z.of_nat (length texts) + 1 >=? batch_size
    then Ok (([], []),
             [batch_from PAD (texts ++ [row_text join_id row])
                             (labels ++ [row_label row])])
    else Ok ((texts ++ [row_text join_id row], labels ++ [row_label row]), []).
Proof.
  unfold is_triple. intros Hrow.
  destruct row as [|s [|t [|l [|more row]]]]; try discriminate.
  apply loop_body_triple.
Qed.

(** While the accumulators stay below the batch size nothing is yielded. *)
Lemma loop_fill rows texts labels :
  Forall is_triple rows →
  Z.of_nat (length texts + length rows) < batch_size →
  run (texts, labels) rows
  = Ok ((texts ++ map (row_text join_id) rows, labels ++ map row_label rows), []).
Proof.
  intros Hrows. revert texts labels.
  induction Hrows as [|row rows Hrow _ IH]; intros texts labels Hlt.
  - rewrite loop_nil. simpl. by rewrite !app_nil_r.
  - simpl in Hlt. rewrite loop_cons, (loop_body_row _ _ _ Hrow).
    destruct (Z.geb_spec (Z.of_nat (length texts) + 1) batch_size); [lia|].
    simpl. rewrite IH by (rewrite length_app; simpl; lia).
    simpl. by rewrite <- !app_assoc.
Qed.

(** The row that brings the accumulators to the batch size yields one
    batch and empties them. *)
Lemma loop_chunk rows texts labels :
  Forall is_triple rows →
  rows ≠ [] →
  Z.of_nat (length texts + length rows) = batch_size →
  run (texts, labels) rows
  = Ok (([], []),
        [batch_from PAD (texts ++ map (row_text join_id) rows)
                        (labels ++ map row_label rows)]).
Proof.
  intros Hrows. revert texts labels.
  induction Hrows as [|row rows Hrow Hrows IH]; intros texts labels Hne Heq;
    [done|].
  rewrite loop_cons, (loop_body_row _ _ _ Hrow).
  destruct rows as [|row' rows].
  - simpl in Heq.
    destruct (Z.geb_spec (Z.of_nat (length texts) + 1) batch_size); [done|lia].
  - simpl in Heq.
    destruct (Z.geb_spec (Z.of_nat (length texts) + 1) batch_size); [lia|].
    change (run (texts ++ [row_text join_id row], labels ++ [row_label row])
                (row' :: rows)
            ≫= (fun more => mret (more.1, [] ++ more.2))
            = Ok (([], []),
                  [batch_from PAD
                     (texts ++ map (row_text join_id) (row :: row' :: rows))
                     (labels ++ map row_label (row :: row' :: rows))])).
    rewrite IH; [| done | rewrite length_app; simpl; lia].
    simpl. by rewrite <- !app_assoc.
Qed.

Lemma loop_app rows1 rows2 acc :
  run acc (rows1 ++ rows2)
  = first ← run acc rows1;
    second ← run first.1 rows2;
    mret (second.1, first.2 ++ second.2).
Proof.
  revert acc. induction rows1 as [|row rows1 IH]; intros acc.
  - rewrite app_nil_l, loop_nil. simpl.
    destruct (run acc rows2) as [[acc' ys]|e]; done.
  - rewrite <- app_comm_cons, !loop_cons.
    destruct (body acc row) as [[acc1 ys1]|e]; [|done]. simpl.
    rewrite IH.
    destruct (run acc1 rows1) as [[acc2 ys2]|e]; [|done]. simpl.
    destruct (run acc2 rows2) as [[acc3 ys3]|e]; [|done]. simpl.
    by rewrite app_assoc.
Qed.

Lemma chunk_succ {A} (n k : nat) (l : list A) :
  chunk n (S k) l = chunk n k (drop n l).
Proof. unfold chunk. rewrite drop_drop. f_equal. Qed.

(** The whole loop from empty accumulators: one batch for each full
    chunk of rows, in order, and the rows after the last full chunk left
    in the accumulators. *)
Lemma loop_chunks (n q : nat) rows :
  batch_size = Z.of_nat n →
  (0 < n)%nat →
  Forall is_triple rows →
  (q * n ≤ length rows < q * n + n)%nat →
  run ([], []) rows
  = Ok ((map (row_text join_id) (drop (q * n) rows),
         map row_label (drop (q * n) rows)),
        map (fun k => batch_of PAD join_id (chunk n k rows)) (seq 0 q)).
Proof.
  intros Hn Hpos. revert rows.
  induction q as [|q IH]; intros rows Hrows Hlen.
  - simpl in *. rewrite loop_fill by (simpl; done || lia). done.
  - rewrite <- (take_drop n rows) at 1.
    assert (length (take n rows) = n) as Htake
      by (rewrite length_take; simpl in Hlen; lia).
    rewrite loop_app.
    rewrite loop_chunk;
      [ | by apply Forall_take
        | intros Hnil; rewrite Hnil in Htake; simpl in Htake; lia
        | simpl; lia ].
    cbn [mbind result_bind fst snd].
    rewrite (IH (drop n rows));
      [ | by apply Forall_drop | rewrite length_drop; simpl in Hlen; lia ].
    cbn [mbind result_bind mret result_ret fst snd app].
    rewrite drop_drop.
    change (n + q * n)%nat with (S q * n)%nat.
    do 2 f_equal.
    change (seq 0 (S q)) with (0%nat :: seq 1 q).
    rewrite <- fmap_S_seq.
    change (S <$> seq 0 q) with (map S (seq 0 q)).
    rewrite map_cons, map_map.
    f_equal.
    apply map_ext. intros k. by rewrite chunk_succ.
Qed.

End Loop.

Section PipelineClaims.

Variable PAD : Z.

Implicit Types (fs : string → list string) (rows : list (list (list Z))).
Implicit Types (join_id batch_size : Z) (data_dir prefix : string).
Implicit Types (text_vocab label_vocab : gmap string Z).

Lemma length_chunk {A} (n k : nat) (l : list A) :
  (k * n + n ≤ length l)%nat → length (chunk n k l) = n.
Proof. intros Hle. unfold chunk. rewrite length_take, length_drop. lia. Qed.

Lemma batch_dims_batch_of join_id rows :
  batch_dims (batch_of PAD join_id rows)
  = [length rows; length rows; length rows; length rows].
Proof. unfold batch_of, batch_from, batch_dims. simpl. by rewrite !length_map. Qed.

(** The loop on any rows that are triples, for a batch size of at least
    one. *)
Lemma loop_quotient join_id batch_size rows :
  (1 ≤ batch_size)%Z →
  Forall is_triple rows →
  let n := Z.to_nat batch_size in
  let q := (length rows / n)%nat in
  loop PAD join_id batch_size ([], []) rows
  = Ok ((map (row_text join_id) (drop (q * n) rows),
         map row_label (drop (q * n) rows)),
        map (fun k => batch_of PAD join_id (chunk n k rows)) (seq 0 q)).
Proof.
  intros Hbs Hrows n q.
  assert (0 < n)%nat as Hn by (unfold n; lia).
  apply loop_chunks; [unfold n; lia | done | done |].
  pose proof (Nat.div_mod_eq (length rows) n) as Hdiv.
  pose proof (Nat.mod_upper_bound (length rows) n) as Hmod.
  fold q in Hdiv. nia.
Qed.

(** C1, for a batch size of at least one. Let n be the batch size and
    rows the merged rows. After the first m rows, for every m, the loop
    has yielded m / n batches and holds m mod n rows in each accumulator:
    a batch is yielded each time n more rows have been consumed, and only
    then. The generator returns length rows / n batches; batch k is
    assembled from rows k * n up to k * n + n, and each of its four
    components has batch dimension n. The rows after the last full chunk
    are in no batch. *)
Theorem pipeline_batching fs data_dir text_vocab label_vocab join_id prefix
    batch_size :
  (1 ≤ batch_size)%Z →
  let n := Z.to_nat batch_size in
  let rows :=
    merge_generators
      (files_its fs data_dir text_vocab label_vocab prefix batch_size) in
  (∀ m : nat, (m ≤ length rows)%nat →
     ∃ acc yielded,
       loop PAD join_id batch_size ([], []) (take m rows) = Ok (acc, yielded)
       ∧ length yielded = (m / n)%nat
       ∧ length acc.1 = (m mod n)%nat ∧ length acc.2 = (m mod n)%nat)
  ∧ ∃ batches,
      labeled_data_generator PAD fs data_dir text_vocab label_vocab join_id
        prefix batch_size = Ok batches
      ∧ length batches = (length rows / n)%nat
      ∧ (∀ (k : nat) b, batches !! k = Some b →
           b = batch_of PAD join_id (chunk n k rows)
           ∧ batch_dims b = [n; n; n; n]).
Proof.
  intros Hbs n rows.
  assert (0 < n)%nat as Hn by (unfold n; lia).
  assert (Forall is_triple rows) as Hrows.
  { unfold rows. rewrite files_its_encodes. apply merged_rows_are_triples. }
  split.
  - intros m Hm.
    assert (length (take m rows) = m) as Hlen by (rewrite length_take; lia).
    eexists _, _. split.
    { apply loop_quotient; [done|by apply Forall_take]. }
    rewrite Hlen. fold n.
    pose proof (Nat.div_mod_eq m n) as Hdiv.
    simpl. rewrite !length_map, length_seq, length_drop, Hlen.
    split; [done|]. split; nia.
  - exists (map (fun k => batch_of PAD join_id (chunk n k rows))
              (seq 0 (length rows / n))).
    split.
    { unfold labeled_data_generator. fold rows.
      rewrite (loop_quotient join_id batch_size rows Hbs Hrows). done. }
    split; [by rewrite length_map, length_seq|].
    intros k b Hk.
    rewrite map_is_fmap, list_lookup_fmap_Some in Hk.
    destruct Hk as (k' & -> & Hk').
    apply lookup_seq in Hk' as [-> Hlt]. rewrite Nat.add_0_l.
    split; [done|].
    rewrite batch_dims_batch_of, length_chunk; [done|].
    pose proof (Nat.div_mod_eq (length rows) n) as Hdiv. nia.
Qed.

(** C3. On a merged row of source ids S, target ids T and label ids L,
    the loop builds the example S, then the join id, then T, of length
    len S + 1 + len T. When the accumulators stay below the batch size it
    is appended to the text accumulator; otherwise it is the last column
    of the text array of the batch that is yielded: its length is the
    last text length, its ids stand in the column in order, and the rest
    of the column is padding. *)
Theorem joined_example join_id batch_size texts labels (S T L : list Z) :
  let e := S ++ [join_id] ++ T in
  let i := length texts in
  length e = (length S + 1 + length T)%nat
  ∧ ((Z.of_nat (length texts) + 1 < batch_size
      ∧ loop_body PAD join_id batch_size (texts, labels) [S; T; L]
        = Ok ((texts ++ [e], labels ++ [L]), []))
     ∨ ((batch_size ≤ Z.of_nat (length texts) + 1)%Z
        ∧ ∃ text text_len label label_len,
            loop_body PAD join_id batch_size (texts, labels) [S; T; L]
            = Ok (([], []), [(text, text_len, label, label_len)])
            ∧ text_len !! i = Some (length e)
            ∧ (∀ (t : nat) x, e !! t = Some x → cell text t i = Some x)
            ∧ (∀ t : nat, (length e ≤ t < (shape text).1)%nat →
                 cell text t i = Some PAD))).
Proof.
  intros e i. split.
  { unfold e. rewrite !length_app. simpl. lia. }
  rewrite loop_body_triple. fold e.
  destruct (Z.geb_spec (Z.of_nat (length texts) + 1) batch_size) as [Hge|Hlt].
  - right. split; [lia|].
    eexists _, _, _, _. split; [reflexivity|].
    apply (time_major_column PAD (texts ++ [e]) i e).
    by apply list_lookup_middle.
  - left. split; [lia|done].
Qed.

End PipelineClaims.

Lemma pipeline_batching_witness :
  ∃ batches,
    labeled_data_generator 0 three_line_fs "d" sample_text_vocab
      main_label_vocab default_join_id default_prefix 2 = Ok batches
    ∧ length batches = 1%nat
    ∧ (∀ (k : nat) b, batches !! k = Some b → batch_dims b = [2; 2; 2; 2]%nat).
Proof.
  assert (1 ≤ 2)%Z as Hbs by lia.
  destruct (pipeline_batching 0 three_line_fs "d" sample_text_vocab
              main_label_vocab default_join_id default_prefix 2 Hbs)
    as (_ & batches & Hrun & Hlen & Hbatch).
  exists batches. split; [done|]. split; [exact Hlen|].
  intros k b Hk. by destruct (Hbatch k b Hk) as [_ Hdims].
Defined.

(** C1, for every batch size, fails: with a batch size of 0 and files of
    one line the generator yields a batch of one example. *)
Lemma yields_batches_of_batch_size_fails :
  ¬ yields_batches_of_batch_size 0 one_line_fs "d" sample_text_vocab
      main_label_vocab default_join_id default_prefix 0.
Proof.
  intros (batches & Hrun & Hdims).
  vm_compute in Hrun. injection Hrun as <-.
  specialize (Hdims _ (list_elem_of_here _ _) 1%nat (list_elem_of_here _ _)).
  discriminate.
Qed.

Lemma merged_rows_truncate_witness :
  length (merge_generators
            (files_its misaligned_fs "d" sample_text_vocab main_label_vocab
               default_prefix default_batch_size)) = 2%nat.
Proof.
  destruct (merged_rows_truncate misaligned_fs "d" sample_text_vocab
              main_label_vocab default_prefix default_batch_size) as [Hlen _].
  exact Hlen.
Defined.

Lemma encoder_lookup_witness :
  vocab_encoder_wrapper sample_text_vocab default_unk_id (Tokens ["a"; "dog"]) !! 1%nat
  = Some 2.
Proof.
  destruct (encoder_lookup sample_text_vocab default_unk_id (Tokens ["a"; "dog"]))
    as (_ & Hids & _).
  destruct (Hids 1%nat "dog" eq_refl) as [_ Hunk].
  apply Hunk. reflexivity.
Defined.

Lemma joined_example_witness :
  loop_body 0 default_join_id default_batch_size ([], []) [[4; 5]; [6]; [2]]
  = Ok (([[4; 5; 3; 6]], [[2]]), []).
Proof.
  destruct (joined_example 0 default_join_id default_batch_size [] []
              [4; 5] [6] [2]) as [_ [[_ Hrun]|[Hle _]]].
  - exact Hrun.
  - unfold default_batch_size in Hle. simpl in Hle. lia.
Defined.

Lemma load_vocab_parse_error_witness :
  load_vocab ["the 10" +:+ nl; "cat" +:+ nl] 4 = Raise ValueError.
Proof.
  apply (load_vocab_parse_error ["the 10" +:+ nl; "cat" +:+ nl] 4).
  apply Exists_cons_tl, Exists_cons_hd. by vm_compute.
Defined.

(** * Further properties *)

(** ** Fields of a line *)

Lemma all_chars_snoc (P : ascii → bool) (s : string) (c : ascii) :
all_chars P (s +:+ String c EmptyString) = all_chars P s && P c.
Proof.
induction s as [|c' s IH]; simpl.
- by rewrite andb_true_r.
- by rewrite IH, andb_assoc.
Qed.

Lemma all_chars_replace_newline (P : ascii → bool) (s : string) :
all_chars P s = true → all_chars P (PyStr.replace_newline s) = true.
Proof.
induction s as [|c s IH]; simpl; [done|].
intros [Hc Hs]%andb_true_iff.
destruct (Ascii.eqb c PyStr.newline); simpl; [by apply IH|].
by rewrite Hc, IH.
Qed.

Lemma eqb_empty_snoc (s : string) (c : ascii) :
String.eqb (s +:+ String c EmptyString) EmptyString = false.
Proof. by destruct s. Qed.

(** Every field [split] returns is clean, whatever the line. *)
Lemma split_from_clean (line cur : string) :
all_chars (fun c => negb (PyStr.is_space c)) cur = true →
Forall clean (PyStr.split_from cur line).
Proof.
revert cur. induction line as [|c line IH]; intros cur Hcur; simpl.
- destruct (String.eqb_spec cur EmptyString) as [->|Hne]; [done|].
  by repeat constructor.
- destruct (PyStr.is_space c) eqn:Hc.
  + destruct (String.eqb_spec cur EmptyString) as [->|Hne]; [by apply IH|].
    constructor; [done|by apply IH].
  + apply IH. by rewrite all_chars_snoc, Hcur, Hc.
Qed.

(** A line of white space only has no field. *)
Lemma split_from_blank (line : string) :
all_chars PyStr.is_space line = true →
PyStr.split_from EmptyString line = [].
Proof.
induction line as [|c line IH]; simpl; [done|].
intros [Hc Hline]%andb_true_iff. rewrite Hc. simpl. by apply IH.
Qed.

Lemma fields_clean (line : string) : Forall clean (fields line).
Proof. unfold fields, PyStr.split. by apply split_from_clean. Qed.

Lemma first_field_clean (line : string) :
well_formed line → clean (first_field line).
Proof.
unfold well_formed, first_field. intros Hwf.
pose proof (fields_clean line) as Hclean.
destruct (fields line) as [|token rest]; [done|].
simpl. by inversion Hclean.
Qed.

(** ** Vocabulary loader *)

Section VocabularyFacts.

Implicit Types (tokens lines : list string) (bias : Z).

(** A successful load read a well-formed file and returns the two maps of
    its tokens. *)
Lemma load_vocab_Ok_inv lines bias token2id id2token :
load_vocab lines bias = Ok (token2id, id2token) →
Forall well_formed lines
∧ token2id = token2id_of (file_tokens lines) bias
∧ id2token = id2token_of (file_tokens lines) bias.
Proof.
intros Hload.
destruct (decide (Forall well_formed lines)) as [Hwf|Hbad].
- rewrite (load_vocab_well_formed lines bias Hwf) in Hload.
  by injection Hload as <- <-.
- apply not_Forall_Exists in Hbad; [|apply _].
  unfold load_vocab in Hload.
  by rewrite (read_tokens_malformed [] lines Hbad) in Hload.
Qed.

Lemma token2id_of_is_Some tokens bias t :
is_Some (token2id_of tokens bias !! t) ↔ t ∈ tokens.
Proof.
induction tokens as [|x tokens IH] using rev_ind.
- unfold token2id_of. simpl. rewrite lookup_empty.
  split; [by intros [? ?]|by intros ?%not_elem_of_nil].
- rewrite token2id_of_snoc, elem_of_app, list_elem_of_singleton, <- IH.
  destruct (decide (x = t)) as [->|Hne].
  + rewrite lookup_insert_eq. split; [by right|by eexists].
  + rewrite lookup_insert_ne by done.
    split; [by left|]. by intros [?|?].
Qed.

Lemma id2token_of_fresh tokens bias :
id2token_of tokens bias !! (Z.of_nat (length tokens) + bias) = None.
Proof.
apply eq_None_not_Some. intros [t Ht].
apply id2token_of_lookup in Ht as (i & Hi & Heq).
apply lookup_lt_Some in Hi. lia.
Qed.

Lemma size_id2token_of tokens bias :
size (id2token_of tokens bias) = length tokens.
Proof.
induction tokens as [|x tokens IH] using rev_ind; [done|].
rewrite id2token_of_snoc, map_size_insert_None by apply id2token_of_fresh.
rewrite IH, length_app. simpl. lia.
Qed.

Lemma size_token2id_of tokens bias :
(size (token2id_of tokens bias) ≤ length tokens)%nat
∧ (size (token2id_of tokens bias) = length tokens ↔ NoDup tokens).
Proof.
induction tokens as [|x tokens [IHle IHeq]] using rev_ind.
- split; [done|]. split; [intros _; constructor|done].
- rewrite token2id_of_snoc, length_app. simpl.
  destruct (decide (x ∈ tokens)) as [Hin|Hnin].
  + pose proof (proj2 (token2id_of_is_Some tokens bias x) Hin) as Hsome.
    rewrite (map_size_insert_Some _ _ _ Hsome).
    split; [lia|]. split; [lia|].
    intros Hnd. apply list.NoDup_app in Hnd as (_ & Hdisj & _).
    exfalso. apply (Hdisj x Hin). by apply list_elem_of_singleton.
  + assert (token2id_of tokens bias !! x = None) as Hnone.
    { apply eq_None_not_Some. by rewrite token2id_of_is_Some. }
    rewrite (map_size_insert_None _ _ _ Hnone).
    split; [lia|]. rewrite list.NoDup_app. split.
    * intros Heq. split; [apply IHeq; lia|]. split.
      -- intros y Hy ->%list_elem_of_singleton. done.
      -- apply NoDup_singleton.
    * intros (Hnd & _ & _). apply IHeq in Hnd. lia.
Qed.

(** X1. After a successful load the map from ids to tokens has one entry
    for every line of the file; the map from tokens to ids has at most as
    many, and exactly as many if and only if no token stands on two
    lines. *)
Theorem load_vocab_sizes lines bias token2id id2token :
load_vocab lines bias = Ok (token2id, id2token) →
size id2token = length lines
∧ (size token2id ≤ length lines)%nat
∧ (size token2id = length lines ↔ NoDup (file_tokens lines)).
Proof.
intros (_ & -> & ->)%load_vocab_Ok_inv.
assert (length (file_tokens lines) = length lines) as Hlen
  by apply length_map.
rewrite size_id2token_of.
pose proof (size_token2id_of (file_tokens lines) bias) as [Hle Heq].
rewrite Hlen in Hle, Heq. done.
Qed.

(** X2. After a successful load, with or without duplicate tokens, the
    tokens of the map from tokens to ids are exactly the tokens of the
    file, and decoding the id of a token gives the token back. *)
Theorem load_vocab_decode_encode lines bias token2id id2token :
load_vocab lines bias = Ok (token2id, id2token) →
(∀ t, is_Some (token2id !! t) ↔ t ∈ file_tokens lines)
∧ (∀ t id, token2id !! t = Some id → id2token !! id = Some t).
Proof.
intros (_ & -> & ->)%load_vocab_Ok_inv. split.
- intros t. apply token2id_of_is_Some.
- intros t id Hid. apply id2token_of_lookup. by apply token2id_of_Some.
Qed.

(** X3. A vocabulary file with a line of white space only, an empty line
    included, is not loaded: [load_vocab] raises the parse error. *)
Theorem load_vocab_blank_line lines bias :
Exists (fun line => all_chars PyStr.is_space line = true) lines →
load_vocab lines bias = Raise ValueError.
Proof.
intros Hblank. unfold load_vocab.
rewrite read_tokens_malformed; [done|].
apply Exists_exists in Hblank as (line & Hin & Hline).
apply Exists_exists. exists line. split; [done|].
unfold well_formed, fields, PyStr.split.
rewrite split_from_blank; [done|].
by apply all_chars_replace_newline.
Qed.

Lemma load_vocab_tokens_clean_aux lines bias token2id id2token t id :
load_vocab lines bias = Ok (token2id, id2token) →
token2id !! t = Some id →
clean t.
Proof.
intros (Hwf & -> & _)%load_vocab_Ok_inv Hid.
assert (t ∈ file_tokens lines) as Hin
  by (apply (token2id_of_is_Some _ bias); eauto).
unfold file_tokens in Hin. rewrite map_is_fmap in Hin.
apply list_elem_of_fmap in Hin as (line & -> & Hline).
apply first_field_clean.
rewrite list.Forall_forall in Hwf. by apply Hwf.
Qed.

(** X4. Every token of a loaded vocabulary is non-empty and free of white
    space, the newline character included, and its id is at least the
    bias. *)
Theorem load_vocab_tokens_clean lines bias token2id id2token t id :
load_vocab lines bias = Ok (token2id, id2token) →
token2id !! t = Some id →
clean t ∧ (bias ≤ id)%Z.
Proof.
intros Hload Hid. split.
- by apply (load_vocab_tokens_clean_aux lines bias token2id id2token t id).
- apply load_vocab_Ok_inv in Hload as (_ & -> & _).
  apply token2id_of_Some in Hid as (i & _ & ->). lia.
Qed.

(** X5. The frequency field is split off and never read: two well-formed
    files with the same tokens line by line load to the same maps. *)
Theorem load_vocab_ignores_frequency lines lines' bias :
Forall well_formed lines →
Forall well_formed lines' →
file_tokens lines = file_tokens lines' →
load_vocab lines bias = load_vocab lines' bias.
Proof.
intros Hwf Hwf' Heq.
by rewrite !load_vocab_well_formed, Heq.
Qed.

(** X6. With the vocabulary size [main] computes, every id of the loaded
    map from tokens to ids is below the vocabulary size if and only if no
    token stands on two lines of the file. *)
Theorem vocab_size_bound lines bias token2id id2token :
load_vocab lines bias = Ok (token2id, id2token) →
(∀ t id, token2id !! t = Some id → id < vocab_size token2id bias)
↔ NoDup (file_tokens lines).
Proof.
intros (_ & -> & _)%load_vocab_Ok_inv.
set (tokens := file_tokens lines).
pose proof (size_token2id_of tokens bias) as [Hle Heq].
unfold vocab_size. split.
- intros Hbound. apply Heq.
  destruct tokens as [|x tokens'] eqn:Htokens using rev_ind; [done|].
  clear IHtokens'.
  assert ((tokens' ++ [x]) !! length tokens' = Some x) as Hlast
    by by apply list_lookup_middle.
  pose proof (token2id_of_last (tokens' ++ [x]) bias _ _ Hlast) as Hid.
  specialize (Hbound x _ (Hid ltac:(
    intros j Hj Hjx; apply lookup_lt_Some in Hjx;
    rewrite length_app in Hjx; simpl in Hjx; lia))).
  rewrite length_app in *. simpl in *. lia.
- intros Hnd t id Hid. apply Heq in Hnd.
  apply token2id_of_Some in Hid as (i & Hi & ->).
  apply lookup_lt_Some in Hi. lia.
Qed.

End VocabularyFacts.

(** ** Line encoder behind the file reader *)

Section ReaderFacts.

Implicit Types (vocab : gmap string Z) (line : string).

(** X7. Behind the file reader only the one-character keys of a
    vocabulary count, and the newline character never does: two
    vocabularies that agree on every one-character key other than the
    newline character encode every line to the same ids. *)
Theorem encode_line_single_characters vocab vocab' line :
(∀ c : ascii, c ≠ PyStr.newline →
   vocab !! String c EmptyString = vocab' !! String c EmptyString) →
encode_line vocab line = encode_line vocab' line.
Proof.
intros Hagree. unfold encode_line, vocab_encoder_wrapper. simpl.
induction line as [|c line IH]; simpl; [done|].
destruct (Ascii.eqb_spec c PyStr.newline) as [->|Hc]; [done|].
simpl. rewrite IH. f_equal.
unfold dict_get. by rewrite (Hagree c Hc).
Qed.

(** X8. Under a vocabulary loaded by [load_vocab], every white-space
    character of a line is encoded to the unknown id 2: no token of a
    vocabulary file holds white space. *)
Theorem loaded_vocab_space_unknown lines bias token2id id2token line
  (i : nat) (c : ascii) :
load_vocab lines bias = Ok (token2id, id2token) →
String.get i (PyStr.replace_newline line) = Some c →
PyStr.is_space c = true →
encode_line token2id line !! i = Some 2.
Proof.
intros Hload Hc Hspace. unfold encode_line.
rewrite lookup_encoder. simpl. rewrite lookup_chars, Hc. simpl.
unfold dict_get.
destruct (token2id !! String c EmptyString) as [id|] eqn:Hid; [|done].
destruct (load_vocab_tokens_clean_aux lines bias token2id id2token _ _ Hload Hid)
  as [_ Hclean].
simpl in Hclean. by rewrite Hspace in Hclean.
Qed.

End ReaderFacts.

(** ** Labeled-data pipeline: every batch size *)

Section PipelineFacts.

Variable PAD : Z.
Variable fs : string → list string.

Implicit Types (rows : list (list (list Z))) (join_id batch_size : Z).
Implicit Types (data_dir prefix : string) (text_vocab label_vocab : gmap string Z).

(** With a batch size of at most one every row fills the accumulators. *)
Lemma loop_every_row join_id batch_size rows :
(batch_size ≤ 1)%Z →
Forall is_triple rows →
loop PAD join_id batch_size ([], []) rows
= Ok (([], []), map (fun row => batch_of PAD join_id [row]) rows).
Proof.
intros Hbs Hrows.
induction Hrows as [|row rows Hrow _ IH]; [done|].
rewrite loop_cons, (loop_body_row _ _ _ _ _ _ Hrow).
destruct (Z.geb_spec (Z.of_nat (length ([] : list (list Z))) + 1) batch_size)
  as [_|Hlt]; [|simpl in Hlt; lia].
cbn [mbind result_bind fst snd]. rewrite IH. done.
Qed.

Local Abbreviation merged := (merged_rows fs).

Lemma merged_triples data_dir text_vocab label_vocab prefix batch_size :
Forall is_triple (merged data_dir text_vocab label_vocab prefix batch_size).
Proof.
unfold merged_rows. rewrite files_its_encodes. apply merged_rows_are_triples.
Qed.

Lemma lookup_merged data_dir text_vocab label_vocab prefix batch_size
  (r : nat) row :
merged data_dir text_vocab label_vocab prefix batch_size !! r = Some row
↔ ∃ s t l,
    row = [encode_line text_vocab s; encode_line text_vocab t;
           encode_line label_vocab l]
    ∧ fs (source_file data_dir prefix) !! r = Some s
    ∧ fs (target_file data_dir prefix) !! r = Some t
    ∧ fs (label_file data_dir prefix) !! r = Some l.
Proof.
unfold merged_rows. rewrite files_its_encodes, lookup_merge_generators_three.
rewrite !map_is_fmap. split.
- intros (x & y & z & -> & Hx & Hy & Hz).
  apply list_lookup_fmap_Some in Hx as (s & -> & Hs).
  apply list_lookup_fmap_Some in Hy as (t & -> & Ht).
  apply list_lookup_fmap_Some in Hz as (l & -> & Hl).
  by exists s, t, l.
- intros (s & t & l & -> & Hs & Ht & Hl).
  eexists _, _, _. split; [done|].
  by rewrite !list_lookup_fmap, Hs, Ht, Hl.
Qed.

Lemma length_merged data_dir text_vocab label_vocab prefix batch_size :
length (merged data_dir text_vocab label_vocab prefix batch_size)
= (length (fs (source_file data_dir prefix))
   `min` (length (fs (target_file data_dir prefix))
          `min` length (fs (label_file data_dir prefix))))%nat.
Proof.
unfold merged_rows.
by rewrite files_its_encodes, length_merge_generators_three, !length_map.
Qed.

(** The batches of the generator, for every batch size. *)
Lemma generator_batches data_dir text_vocab label_vocab join_id prefix batch_size :
labeled_data_generator PAD fs data_dir text_vocab label_vocab join_id prefix
  batch_size
= Ok (map (batch_of PAD join_id)
        (pipeline_chunks batch_size
           (merged data_dir text_vocab label_vocab prefix batch_size))).
Proof.
unfold labeled_data_generator, pipeline_chunks.
fold (merged data_dir text_vocab label_vocab prefix batch_size).
pose proof (merged_triples data_dir text_vocab label_vocab prefix batch_size)
  as Hrows.
destruct (Z.leb_spec 1 batch_size) as [Hbs|Hbs].
- rewrite (loop_quotient PAD join_id batch_size _ Hbs Hrows).
  cbn [mbind result_bind mret result_ret snd]. by rewrite map_map.
- rewrite loop_every_row by (done || lia).
  cbn [mbind result_bind mret result_ret snd]. by rewrite map_map.
Qed.


(** X10. With a batch size of one, zero or less, the generator yields one
    batch for every merged row, in order: each is assembled from that row
    alone and has batch dimension one in its four components. *)
Theorem labeled_data_generator_batch_per_row data_dir text_vocab label_vocab
    join_id prefix batch_size :
(batch_size ≤ 1)%Z →
∃ batches,
  labeled_data_generator PAD fs data_dir text_vocab label_vocab join_id prefix
    batch_size = Ok batches
  ∧ length batches
    = length (merge_generators
                (files_its fs data_dir text_vocab label_vocab prefix batch_size))
  ∧ (∀ (k : nat) row,
       merge_generators
         (files_its fs data_dir text_vocab label_vocab prefix batch_size) !! k
       = Some row →
       batches !! k = Some (batch_of PAD join_id [row])
       ∧ batch_dims (batch_of PAD join_id [row]) = [1; 1; 1; 1]%nat).
Proof.
intros Hbs.
pose proof (merged_triples data_dir text_vocab label_vocab prefix batch_size)
  as Hrows.
exists (map (fun row => batch_of PAD join_id [row])
          (merged data_dir text_vocab label_vocab prefix batch_size)).
split; [|split].
- unfold labeled_data_generator.
  fold (merged data_dir text_vocab label_vocab prefix batch_size).
  by rewrite loop_every_row.
- apply length_map.
- intros k row Hk. fold (merged data_dir text_vocab label_vocab prefix batch_size) in Hk.
  split; [|done]. by rewrite map_is_fmap, list_lookup_fmap, Hk.
Qed.

(** X11. With a batch size of at least one, the generator yields nothing
    at all exactly when the shortest of the three files has fewer lines
    than the batch size; an empty file is one such case. *)
Theorem labeled_data_generator_nothing data_dir text_vocab label_vocab join_id
    prefix batch_size :
(1 ≤ batch_size)%Z →
labeled_data_generator PAD fs data_dir text_vocab label_vocab join_id prefix
  batch_size = Ok []
↔ (Z.of_nat (length (fs (source_file data_dir prefix))
             `min` (length (fs (target_file data_dir prefix))
                    `min` length (fs (label_file data_dir prefix))))
   < batch_size)%Z.
Proof.
intros Hbs.
rewrite generator_batches,
  <- (length_merged data_dir text_vocab label_vocab prefix batch_size).
set (rows := merged data_dir text_vocab label_vocab prefix batch_size).
unfold pipeline_chunks.
destruct (Z.leb_spec 1 batch_size) as [_|?]; [|lia].
assert (Z.to_nat batch_size ≠ 0%nat) as Hn by lia.
pose proof (Nat.div_small_iff (length rows) (Z.to_nat batch_size) Hn) as Hdiv.
split.
- intros [= Hnil].
  apply (f_equal length) in Hnil.
  rewrite !length_map, length_seq in Hnil. simpl in Hnil.
  apply Hdiv in Hnil. lia.
- intros Hlt.
  assert (length rows / Z.to_nat batch_size = 0)%nat as -> by (apply Hdiv; lia).
  done.
Qed.

End PipelineFacts.

(** ** Labeled-data pipeline: what a batch holds *)

Section AssemblerFacts.

Variable PAD : Z.

Implicit Types (s : list Z) (inputs : list (list Z)).

(** Every cell of an assembled chunk is an item of its column's sequence
    at the same position, or padding after the end of that sequence. *)
Lemma cell_time_major_inv inputs (p i : nat) x :
cell (time_major PAD inputs).1 p i = Some x →
∃ s, inputs !! i = Some s
     ∧ (s !! p = Some x ∨ (x = PAD ∧ (length s ≤ p)%nat)).
Proof.
unfold cell. simpl. intros Hcell.
destruct (swapaxes PAD (max_list (map length inputs))
            (map (pad_to PAD (max_list (map length inputs))) inputs) !! p)
  as [row|] eqn:Hrow; [|done].
simpl in Hcell.
unfold swapaxes in Hrow. rewrite map_is_fmap in Hrow.
apply list_lookup_fmap_Some in Hrow as (p' & -> & Hp').
apply lookup_seq in Hp' as [-> Hp]. simpl in Hcell.
unfold column in Hcell. rewrite !map_is_fmap in Hcell.
apply list_lookup_fmap_Some in Hcell as (s' & -> & Hs').
apply list_lookup_fmap_Some in Hs' as (s & -> & Hs).
exists s. split; [done|].
destruct (s !! p) as [y|] eqn:Hy.
- left. by rewrite (lookup_pad_to_data PAD _ _ _ _ Hy).
- right. apply lookup_ge_None in Hy.
  by rewrite lookup_pad_to_padding by lia.
Qed.

End AssemblerFacts.

Lemma lookup_chunk {A} (n k i : nat) (l : list A) :
(i < n)%nat → chunk n k l !! i = l !! (k * n + i)%nat.
Proof. intros Hi. unfold chunk. by rewrite lookup_take_lt, lookup_drop. Qed.

Lemma chunk_subseteq {A} (n k : nat) (l : list A) : chunk n k l ⊆ l.
Proof.
unfold chunk. etrans; [apply subseteq_take|apply subseteq_drop].
Qed.

Lemma pipeline_chunks_subseteq {A} (batch_size : Z) (l ch : list A) :
ch ∈ pipeline_chunks batch_size l → ch ⊆ l.
Proof.
unfold pipeline_chunks. rewrite !map_is_fmap.
destruct (1 <=? batch_size)%Z; intros Hch.
- apply list_elem_of_fmap in Hch as (k & -> & _). apply chunk_subseteq.
- apply list_elem_of_fmap in Hch as (x & -> & Hx).
  intros y ->%list_elem_of_singleton. done.
Qed.

Lemma lookup_pipeline_chunks {A} (batch_size : Z) (l ch : list A) (k : nat) :
(1 ≤ batch_size)%Z →
pipeline_chunks batch_size l !! k = Some ch →
ch = chunk (Z.to_nat batch_size) k l
∧ (k * Z.to_nat batch_size + Z.to_nat batch_size ≤ length l)%nat.
Proof.
intros Hbs. unfold pipeline_chunks.
destruct (Z.leb_spec 1 batch_size) as [_|?]; [|lia].
rewrite map_is_fmap. intros Hk.
apply list_lookup_fmap_Some in Hk as (k' & -> & Hk').
apply lookup_seq in Hk' as [-> Hlt]. split; [done|].
pose proof (Nat.div_mod_eq (length l) (Z.to_nat batch_size)). nia.
Qed.

Lemma elem_of_encoder vocab unk_id line x :
x ∈ vocab_encoder_wrapper vocab unk_id line →
x = unk_id ∨ ∃ key, vocab !! key = Some x.
Proof.
unfold vocab_encoder_wrapper. rewrite map_is_fmap.
intros (t & -> & _)%list_elem_of_fmap. unfold dict_get.
destruct (vocab !! t) as [id|] eqn:Hid; [right; by exists t|by left].
Qed.

Lemma length_encode_line vocab line :
length (encode_line vocab line) = String.length (PyStr.replace_newline line).
Proof.
unfold encode_line, vocab_encoder_wrapper. rewrite length_map. apply length_chars.
Qed.

Section BatchFacts.

Variable PAD : Z.
Variable fs : string → list string.

Implicit Types (join_id batch_size : Z) (data_dir prefix : string).
Implicit Types (text_vocab label_vocab : gmap string Z) (batches : list batch).

Local Abbreviation generator := (labeled_data_generator PAD fs).

(** A batch of the generator, for a batch size of at least one: the rows
    it is assembled from, with the lines they come from. *)
Lemma generator_batch_rows data_dir text_vocab label_vocab join_id prefix
    batch_size batches (k : nat) b :
(1 ≤ batch_size)%Z →
generator data_dir text_vocab label_vocab join_id prefix batch_size = Ok batches →
batches !! k = Some b →
∃ ch,
  b = batch_of PAD join_id ch
  ∧ ∀ i : nat, (i < Z.to_nat batch_size)%nat →
      ∃ s t l,
        fs (source_file data_dir prefix) !! (k * Z.to_nat batch_size + i)%nat
        = Some s
        ∧ fs (target_file data_dir prefix) !! (k * Z.to_nat batch_size + i)%nat
          = Some t
        ∧ fs (label_file data_dir prefix) !! (k * Z.to_nat batch_size + i)%nat
          = Some l
        ∧ ch !! i = Some [encode_line text_vocab s; encode_line text_vocab t;
                          encode_line label_vocab l].
Proof.
intros Hbs Hrun Hk.
rewrite generator_batches in Hrun. injection Hrun as <-.
rewrite map_is_fmap in Hk.
apply list_lookup_fmap_Some in Hk as (ch & -> & Hch).
apply lookup_pipeline_chunks in Hch as [-> Hlen]; [|done].
eexists. split; [done|]. intros i Hi.
destruct (lookup_lt_is_Some_2
            (merged_rows fs data_dir text_vocab label_vocab prefix batch_size)
            (k * Z.to_nat batch_size + i)) as [row Hrow]; [lia|].
pose proof Hrow as Hrow'.
apply lookup_merged in Hrow' as (s & t & l & -> & Hs & Ht & Hl).
exists s, t, l. split; [done|]. split; [done|]. split; [done|].
by rewrite lookup_chunk.
Qed.

(** X12. With a batch size of at least one, the lengths a batch carries
    count characters: the text length of example i of batch k is the
    number of characters of its source line plus one plus that of its
    target line, newline characters left out, and its label length is the
    number of characters of its label line. *)
Theorem batch_lengths_count_characters data_dir text_vocab label_vocab join_id
    prefix batch_size batches (k i : nat) text text_len label label_len :
(1 ≤ batch_size)%Z →
generator data_dir text_vocab label_vocab join_id prefix batch_size = Ok batches →
batches !! k = Some (text, text_len, label, label_len) →
(i < Z.to_nat batch_size)%nat →
∃ s t l,
  fs (source_file data_dir prefix) !! (k * Z.to_nat batch_size + i)%nat = Some s
  ∧ fs (target_file data_dir prefix) !! (k * Z.to_nat batch_size + i)%nat = Some t
  ∧ fs (label_file data_dir prefix) !! (k * Z.to_nat batch_size + i)%nat = Some l
  ∧ text_len !! i
    = Some (String.length (PyStr.replace_newline s) + 1
            + String.length (PyStr.replace_newline t))%nat
  ∧ label_len !! i = Some (String.length (PyStr.replace_newline l)).
Proof.
intros Hbs Hrun Hk Hi.
destruct (generator_batch_rows _ _ _ _ _ _ _ _ _ Hbs Hrun Hk) as (ch & Hb & Hch).
destruct (Hch i Hi) as (s & t & l & Hs & Ht & Hl & Hrow).
exists s, t, l. split; [done|]. split; [done|]. split; [done|].
unfold batch_of, batch_from in Hb. injection Hb as -> -> -> ->.
simpl. rewrite !map_is_fmap, !list_lookup_fmap, Hrow. simpl.
unfold row_text, row_label. simpl.
rewrite length_app. simpl. rewrite !length_encode_line.
split; f_equal; lia.
Qed.

(** What the cells of the two arrays of a batch can hold. *)
Lemma generator_cells data_dir text_vocab label_vocab join_id prefix
    batch_size batches text text_len label label_len (p i : nat) x :
generator data_dir text_vocab label_vocab join_id prefix batch_size = Ok batches →
(text, text_len, label, label_len) ∈ batches →
(cell text p i = Some x →
   x = PAD ∨ x = join_id ∨ x = default_unk_id
   ∨ ∃ key, text_vocab !! key = Some x)
∧ (cell label p i = Some x →
     x = PAD ∨ x = default_unk_id ∨ ∃ key, label_vocab !! key = Some x).
Proof.
intros Hrun Hb.
rewrite generator_batches in Hrun. injection Hrun as <-.
rewrite map_is_fmap in Hb.
apply list_elem_of_fmap in Hb as (ch & Hb & Hch).
apply pipeline_chunks_subseteq in Hch.
unfold batch_of, batch_from in Hb. injection Hb as -> -> -> ->.
assert (∀ row, row ∈ ch → ∃ s t l,
          row = [encode_line text_vocab s; encode_line text_vocab t;
                 encode_line label_vocab l]) as Hrows.
{ intros row Hrow. apply Hch in Hrow.
  apply list_elem_of_lookup in Hrow as [r Hr].
  apply lookup_merged in Hr as (s & t & l & -> & _). by exists s, t, l. }
split; intros Hcell.
- apply cell_time_major_inv in Hcell as (e & He & [Hx|[-> _]]); [|by left].
  rewrite map_is_fmap in He.
  apply list_lookup_fmap_Some in He as (row & -> & Hrow).
  destruct (Hrows row) as (s & t & l & ->);
    [apply list_elem_of_lookup; eauto|].
  unfold row_text in Hx. simpl in Hx.
  assert (x ∈ encode_line text_vocab s ++ join_id :: encode_line text_vocab t)
    as Hin by (apply list_elem_of_lookup; eauto).
  rewrite elem_of_app, elem_of_cons in Hin.
  destruct Hin as [Hin|[->|Hin]]; [|by right; left|].
  + apply elem_of_encoder in Hin as [->|Hkey]; [by right; right; left|].
    by right; right; right.
  + apply elem_of_encoder in Hin as [->|Hkey]; [by right; right; left|].
    by right; right; right.
- apply cell_time_major_inv in Hcell as (e & He & [Hx|[-> _]]); [|by left].
  rewrite map_is_fmap in He.
  apply list_lookup_fmap_Some in He as (row & -> & Hrow).
  destruct (Hrows row) as (s & t & l & ->);
    [apply list_elem_of_lookup; eauto|].
  unfold row_label in Hx. simpl in Hx.
  assert (x ∈ encode_line label_vocab l) as Hin
    by (apply list_elem_of_lookup; eauto).
  apply elem_of_encoder in Hin as [->|Hkey]; [by right; left|by right; right].
Qed.

(** X13. Whatever the batch size, every cell of a text array the
    generator yields is the padding constant, the join id, the unknown id
    or an id of the text vocabulary, and every cell of a label array is
    the padding constant, the unknown id or an id of the label
    vocabulary. *)
Theorem batch_cells_in_range data_dir text_vocab label_vocab join_id prefix
    batch_size batches text text_len label label_len (p i : nat) x :
generator data_dir text_vocab label_vocab join_id prefix batch_size = Ok batches →
(text, text_len, label, label_len) ∈ batches →
(cell text p i = Some x →
   x = PAD ∨ x = join_id ∨ x = default_unk_id
   ∨ ∃ key, text_vocab !! key = Some x)
∧ (cell label p i = Some x →
     x = PAD ∨ x = default_unk_id ∨ ∃ key, label_vocab !! key = Some x).
Proof. apply generator_cells. Qed.

(** X20. With the constants of [main] (bias 4, join id 3, the label
    vocabulary of the two classes) and a vocabulary file without duplicate
    tokens, the ids of a batch fit the sizes [main] gives the model: a
    text cell is the padding constant or at least 2 and below the
    vocabulary size, and a label cell is the padding constant or at least
    2 and below the number of label classes. *)
Theorem batch_ids_fit_model lines text_vocab id2token data_dir prefix
    batch_size batches text text_len label label_len (p i : nat) x :
load_vocab lines main_ids_bias = Ok (text_vocab, id2token) →
NoDup (file_tokens lines) →
generator data_dir text_vocab main_label_vocab default_join_id prefix batch_size
= Ok batches →
(text, text_len, label, label_len) ∈ batches →
(cell text p i = Some x →
   x = PAD ∨ (2 ≤ x < vocab_size text_vocab main_ids_bias)%Z)
∧ (cell label p i = Some x →
     x = PAD ∨ (2 ≤ x < n_label_classes main_label_vocab)%Z).
Proof.
intros Hload Hnd Hrun Hb.
destruct (generator_cells _ _ _ _ _ _ _ _ _ _ _ p i x Hrun Hb) as [Htext Hlabel].
apply load_vocab_Ok_inv in Hload as (_ & -> & _).
pose proof (size_token2id_of (file_tokens lines) main_ids_bias) as [_ Hsize].
apply Hsize in Hnd.
unfold vocab_size, n_label_classes, main_ids_bias, default_join_id,
  default_unk_id in *.
split; intros Hcell.
- destruct (Htext Hcell) as [->|[->|[->|[key Hkey]]]]; [by left|right..].
  + lia.
  + lia.
  + apply token2id_of_Some in Hkey as (j & Hj & ->).
    apply lookup_lt_Some in Hj. lia.
- destruct (Hlabel Hcell) as [->|[->|[key Hkey]]]; [by left|right..].
  + by vm_compute.
  + unfold main_label_vocab in Hkey.
    apply lookup_insert_Some in Hkey as [[_ <-]|[_ Hkey]]; [by vm_compute|].
    apply lookup_insert_Some in Hkey as [[_ <-]|[_ Hkey]]; [by vm_compute|].
    by rewrite lookup_empty in Hkey.
Qed.

End BatchFacts.

Section JoinFacts.

Variable PAD : Z.
Variable fs : string → list string.

Implicit Types (batch_size : Z) (data_dir prefix : string).
Implicit Types (text_vocab label_vocab : gmap string Z) (batches : list batch).




End JoinFacts.

(** ** Batch wrappers *)

Section WrapperFacts.

Variable PAD : Z.

Implicit Types (pairs : list (list (list Z) * list (list Z))).
Implicit Types (generator : list (list (list (list Z)))) (double : bool).

Local Abbreviation wrapper := (seq2seq_generator_wrapper PAD).

Lemma wrapper_cons_pair p generator double :
both_nonempty p →
wrapper (pair_batch p :: generator) double
= more ← wrapper generator double;
  mret (yield_pair double (time_major PAD p.1) (time_major PAD p.2) ++ more).
Proof.
intros [H1 H2]. destruct p as [seq target]. simpl in *.
by rewrite !time_major_batch_nonempty.
Qed.

Lemma yield_pair_double seq target :
yield_pair true (time_major PAD seq) (time_major PAD target)
= [batch_from PAD seq target; swap_batch (batch_from PAD seq target)].
Proof. reflexivity. Qed.

Lemma wrapper_pairs pairs double :
Forall both_nonempty pairs →
wrapper (map pair_batch pairs) double
= Ok (flat_map (fun p => yield_pair double (time_major PAD p.1)
                           (time_major PAD p.2)) pairs).
Proof.
intros Hpairs. induction Hpairs as [|p pairs Hp _ IH]; [done|].
rewrite map_cons, wrapper_cons_pair, IH by done. done.
Qed.

(** X15. On a generator of pairs of non-empty chunks the wrapper yields
    one batch per pair, in order, the first chunk before the second; with
    [double] set it yields the same batches, each followed by its mirror
    image, the second chunk before the first. *)
Theorem wrapper_double_mirrors pairs :
Forall both_nonempty pairs →
∃ batches,
  wrapper (map pair_batch pairs) false = Ok batches
  ∧ length batches = length pairs
  ∧ (∀ (k : nat) p, pairs !! k = Some p →
       batches !! k = Some (batch_from PAD p.1 p.2))
  ∧ wrapper (map pair_batch pairs) true
    = Ok (flat_map (fun b => [b; swap_batch b]) batches).
Proof.
intros Hpairs.
exists (map (fun p => batch_from PAD p.1 p.2) pairs).
rewrite !wrapper_pairs by done.
split; [|split; [|split]].
- reflexivity.
- apply length_map.
- intros k p Hk. by rewrite map_is_fmap, list_lookup_fmap, Hk.
- f_equal; clear Hpairs; induction pairs as [|p pairs IH]; [done|];
    simpl; by rewrite IH.
Qed.

(** X16. A batch that does not have exactly two items, after pairs of
    non-empty chunks, makes the wrapper raise the unpacking error. *)
Theorem wrapper_unpacking_error pairs bad generator double :
Forall both_nonempty pairs →
length bad ≠ 2%nat →
wrapper (map pair_batch pairs ++ bad :: generator) double = Raise ValueError.
Proof.
intros Hpairs Hbad.
induction Hpairs as [|p pairs Hp _ IH].
- simpl. by destruct bad as [|seq [|target [|more bad]]].
- rewrite map_cons, <- app_comm_cons, wrapper_cons_pair, IH by done. done.
Qed.

End WrapperFacts.

Section GeneratorAsWrapper.

Variable PAD : Z.
Variable fs : string → list string.

Lemma pipeline_chunks_nonempty {A} (batch_size : Z) (l : list A) :
Forall (fun ch => ch ≠ []) (pipeline_chunks batch_size l).
Proof.
apply Forall_lookup. intros k ch Hk.
destruct (Z.leb_spec 1 batch_size) as [Hbs|Hbs].
- apply lookup_pipeline_chunks in Hk as [-> Hlen]; [|done].
  intros Hnil. apply (f_equal length) in Hnil.
  rewrite length_chunk in Hnil by done. simpl in Hnil. lia.
- unfold pipeline_chunks in Hk.
  destruct (Z.leb_spec 1 batch_size) as [?|_]; [lia|].
  rewrite map_is_fmap in Hk.
  by apply list_lookup_fmap_Some in Hk as (x & -> & _).
Qed.

(** X17. The labeled-data generator yields what the wrapper, without
    [double], yields on the chunks of merged rows, each chunk given as its
    joined examples and its labels. *)
Theorem labeled_data_generator_as_wrapper data_dir text_vocab label_vocab
    join_id prefix batch_size :
labeled_data_generator PAD fs data_dir text_vocab label_vocab join_id prefix
  batch_size
= seq2seq_generator_wrapper PAD
    (map (chunk_pair join_id)
       (pipeline_chunks batch_size
          (merge_generators
             (files_its fs data_dir text_vocab label_vocab prefix batch_size))))
    false.
Proof.
rewrite generator_batches. unfold merged_rows.
set (chunks := pipeline_chunks batch_size _).
pose proof (pipeline_chunks_nonempty batch_size
  (merge_generators
     (files_its fs data_dir text_vocab label_vocab prefix batch_size))) as Hne.
fold chunks in Hne. clearbody chunks.
replace (map (chunk_pair join_id) chunks)
  with (map pair_batch
          (map (fun ch => (map (row_text join_id) ch, map row_label ch)) chunks))
  by (by rewrite map_map).
rewrite wrapper_pairs.
- f_equal. induction chunks as [|ch chunks IH]; [done|].
  apply list.Forall_cons in Hne as [_ Hne]. simpl. by rewrite <- IH.
- rewrite map_is_fmap, list.Forall_fmap.
  eapply list.Forall_impl; [exact Hne|].
  intros ch Hch. split; simpl; by destruct ch.
Qed.

End GeneratorAsWrapper.

Section IterFacts.

Variable PAD : Z.
Variable iterate_minibatches : list Z → Z → list (list Z).

Implicit Types (data : list (list Z * list Z)) (batch : list Z).
Implicit Types (batches : list (list Z)) (double : bool).

Local Abbreviation iter_loop := (seq2seq_iter_loop PAD).

Lemma getitem_in_range {A} (l : list A) (i : Z) :
(0 ≤ i < Z.of_nat (length l))%Z →
∃ x, l !! Z.to_nat i = Some x ∧ getitem l i = Ok x.
Proof.
intros Hi. destruct (lookup_lt_is_Some_2 l (Z.to_nat i)) as [x Hx]; [lia|].
exists x. split; [done|]. unfold getitem, subscript.
destruct (Z.leb_spec 0 i); [|lia]. by rewrite Hx.
Qed.

Lemma gather_in_range {A} (l : list A) batch :
Forall (fun i => (0 ≤ i < Z.of_nat (length l))%Z) batch →
gather l batch = Ok (pick l batch) ∧ length (pick l batch) = length batch.
Proof.
intros Hbatch. induction Hbatch as [|i batch Hi _ [IH IHlen]]; [done|].
destruct (getitem_in_range l i Hi) as (x & Hx & Hget).
simpl. rewrite Hget, IH. unfold pick at 1 3. simpl.
destruct (Z.leb_spec 0 i); [|lia]. rewrite Hx. simpl.
fold (pick l batch). by rewrite IHlen.
Qed.

Lemma iter_loop_cons_in_range data batch batches double :
in_range data batch →
iter_loop data (batch :: batches) double
= seq2seq_generator_wrapper PAD [picked_batch data batch] double
  ≫= (fun first => more ← iter_loop data batches double; mret (first ++ more)).
Proof.
intros [Hne Hbatch].
destruct (gather_in_range data batch Hbatch) as [Hgather Hlen].
simpl. rewrite Hgather. cbn [mbind result_bind].
destruct (pick data batch) as [|item items] eqn:Hpick.
{ destruct batch; [done|]. simpl in Hlen. lia. }
cbn [zip_star picked_batch].
rewrite !time_major_batch_nonempty by done.
cbn [mbind result_bind mret result_ret].
destruct (iter_loop data batches double) as [more|e]; [|done].
cbn [mbind result_bind mret result_ret]. by rewrite app_nil_r.
Qed.

Lemma wrapper_cons_Ok batch_items generator double first :
seq2seq_generator_wrapper PAD [batch_items] double = Ok first →
seq2seq_generator_wrapper PAD (batch_items :: generator) double
= more ← seq2seq_generator_wrapper PAD generator double; mret (first ++ more).
Proof.
simpl. destruct batch_items as [|seq [|target [|more batch_items]]]; try done.
destruct (time_major_batch PAD seq) as [seq_out|e]; [|done].
destruct (time_major_batch PAD target) as [target_out|e]; [|done].
cbn [mbind result_bind mret result_ret]. intros [= <-].
by rewrite app_nil_r.
Qed.

Lemma wrapper_picked_Ok data batch double :
in_range data batch →
is_Ok (seq2seq_generator_wrapper PAD [picked_batch data batch] double).
Proof.
intros [Hne Hbatch].
destruct (gather_in_range data batch Hbatch) as [_ Hlen].
simpl.
rewrite !time_major_batch_nonempty; [apply is_Ok_Ok| |];
  intros Hnil; apply (f_equal length) in Hnil;
  rewrite length_map, Hlen in Hnil; by destruct batch.
Qed.

Lemma iter_loop_as_wrapper data batches double :
Forall (in_range data) batches →
iter_loop data batches double
= seq2seq_generator_wrapper PAD (map (picked_batch data) batches) double.
Proof.
intros Hbatches.
induction Hbatches as [|batch batches Hbatch _ IH]; [done|].
rewrite iter_loop_cons_in_range by done.
destruct (wrapper_picked_Ok data batch double Hbatch) as [first Hfirst].
rewrite map_cons.
rewrite (wrapper_cons_Ok _ (map (picked_batch data) batches) _ _ Hfirst).
by rewrite <- IH, Hfirst.
Qed.

(** X18. When every batch of indices [iterate_minibatches] yields is
    non-empty with its indices in range and not negative, [seq2seq_iter]
    yields what the wrapper yields on the batches made of the sequences
    and of the targets of the items at those indices. *)
Theorem seq2seq_iter_as_wrapper data batch_size double :
Forall (in_range data)
  (iterate_minibatches (arange (length data)) batch_size) →
seq2seq_iter PAD iterate_minibatches data batch_size double
= seq2seq_generator_wrapper PAD
    (map (picked_batch data)
       (iterate_minibatches (arange (length data)) batch_size))
    double.
Proof. intros Hbatches. unfold seq2seq_iter. by apply iter_loop_as_wrapper. Qed.

(** X19. An empty batch of indices, after batches that are non-empty with
    their indices in range, makes [seq2seq_iter] raise the unpacking
    error: the batch assembler is not reached. *)
Theorem seq2seq_iter_empty_minibatch data batch_size double good rest :
iterate_minibatches (arange (length data)) batch_size = good ++ [] :: rest →
Forall (in_range data) good →
seq2seq_iter PAD iterate_minibatches data batch_size double = Raise ValueError.
Proof.
intros Hbatches Hgood. unfold seq2seq_iter. rewrite Hbatches. clear Hbatches.
induction Hgood as [|batch good Hbatch _ IH]; [done|].
rewrite <- app_comm_cons, iter_loop_cons_in_range, IH by done.
destruct (wrapper_picked_Ok data batch double Hbatch) as [first Hfirst].
by rewrite Hfirst.
Qed.

End IterFacts.

(** ** Accepted lines of a vocabulary file *)

Section LineFormat.

Implicit Types (s cur rest token freq pre sep post : string).

Lemma append_nil_l s : EmptyString +:+ s = s.
Proof. reflexivity. Qed.

Lemma append_cons_l (c : ascii) s1 s2 :
String c s1 +:+ s2 = String c (s1 +:+ s2).
Proof. reflexivity. Qed.

Ltac simpl_append := rewrite ?append_nil_l, ?append_cons_l; simpl.

Lemma append_nil_r s : s +:+ EmptyString = s.
Proof. induction s as [|c s IH]; simpl_append; congruence. Qed.

Lemma string_app_assoc s1 s2 s3 : (s1 +:+ s2) +:+ s3 = s1 +:+ (s2 +:+ s3).
Proof. induction s1 as [|c s1 IH]; simpl_append; congruence. Qed.

Lemma all_chars_impl (P Q : ascii → bool) s :
(∀ c, P c = true → Q c = true) →
all_chars P s = true → all_chars Q s = true.
Proof.
intros HPQ. induction s as [|c s IH]; simpl; [done|].
intros [Hc Hs]%andb_true_iff. by rewrite (HPQ c Hc), IH.
Qed.

Lemma replace_newline_app s1 s2 :
PyStr.replace_newline (s1 +:+ s2)
= PyStr.replace_newline s1 +:+ PyStr.replace_newline s2.
Proof.
induction s1 as [|c s1 IH]; simpl_append; [done|].
destruct (Ascii.eqb c PyStr.newline); simpl_append; congruence.
Qed.

Lemma replace_newline_none s :
all_chars (fun c => negb (Ascii.eqb c PyStr.newline)) s = true →
PyStr.replace_newline s = s.
Proof.
induction s as [|c s IH]; simpl; [done|].
intros [Hc Hs]%andb_true_iff.
destruct (Ascii.eqb c PyStr.newline); [done|]. by rewrite IH.
Qed.

Lemma newline_is_space : PyStr.is_space PyStr.newline = true.
Proof. reflexivity. Qed.

Lemma replace_newline_clean s :
all_chars (fun c => negb (PyStr.is_space c)) s = true →
PyStr.replace_newline s = s.
Proof.
intros Hs. apply replace_newline_none.
revert Hs. apply all_chars_impl. intros c Hc.
destruct (Ascii.eqb_spec c PyStr.newline) as [->|_]; [|done].
by rewrite newline_is_space in Hc.
Qed.

Lemma replace_newline_inline_blank s :
inline_blank s →
PyStr.replace_newline s = s ∧ all_chars PyStr.is_space s = true.
Proof.
unfold inline_blank. intros Hs. split.
- apply replace_newline_none. revert Hs. apply all_chars_impl.
  by intros c [_ Hc]%andb_true_iff.
- revert Hs. apply all_chars_impl. by intros c [Hc _]%andb_true_iff.
Qed.

(** White space before a field is skipped. *)
Lemma split_from_skip_blank s rest :
all_chars PyStr.is_space s = true →
PyStr.split_from EmptyString (s +:+ rest) = PyStr.split_from EmptyString rest.
Proof.
induction s as [|c s IH]; simpl_append; [done|].
intros [Hc Hs]%andb_true_iff. rewrite Hc. simpl. by apply IH.
Qed.

(** White space after a field ends it. *)
Lemma split_from_end_field cur s rest :
cur ≠ EmptyString → s ≠ EmptyString →
all_chars PyStr.is_space s = true →
PyStr.split_from cur (s +:+ rest) = cur :: PyStr.split_from EmptyString rest.
Proof.
intros Hcur Hs Hblank. destruct s as [|c s]; [done|].
simpl_append.
simpl in Hblank. apply andb_true_iff in Hblank as [Hc Hblank]. rewrite Hc.
destruct (String.eqb_spec cur EmptyString) as [?|_]; [done|].
f_equal. by apply split_from_skip_blank.
Qed.

(** The characters of a field are read into the run. *)
Lemma split_from_read_field cur s rest :
all_chars (fun c => negb (PyStr.is_space c)) s = true →
PyStr.split_from cur (s +:+ rest) = PyStr.split_from (cur +:+ s) rest.
Proof.
revert cur. induction s as [|c s IH]; intros cur; simpl_append.
- intros _. by rewrite append_nil_r.
- intros [Hc Hs]%andb_true_iff.
  apply negb_true_iff in Hc. rewrite Hc, IH by done.
  by rewrite string_app_assoc.
Qed.

Lemma split_from_last_field cur s :
cur ≠ EmptyString →
all_chars PyStr.is_space s = true →
PyStr.split_from cur s = [cur].
Proof.
intros Hcur Hblank. destruct s as [|c s]; simpl in *.
- by destruct (String.eqb_spec cur EmptyString).
- apply andb_true_iff in Hblank as [Hc Hblank]. rewrite Hc.
  destruct (String.eqb_spec cur EmptyString) as [?|_]; [done|].
  f_equal. by apply split_from_blank.
Qed.

(** X21. A line made of a token and a frequency, both non-empty and free
    of white space, with white space between them, and any white space
    before the token and after the frequency, is split into exactly the
    token and the frequency: tabs and runs of spaces separate as well as
    one space does, and the white space around is dropped. *)
Theorem vocab_line_format pre token sep freq post :
clean token → clean freq →
inline_blank pre → inline_blank sep → sep ≠ EmptyString →
all_chars PyStr.is_space post = true →
fields (pre +:+ token +:+ sep +:+ freq +:+ post) = [token; freq].
Proof.
intros [Htoken Htoken'] [Hfreq Hfreq'] Hpre Hsep Hne Hpost.
apply replace_newline_inline_blank in Hpre as [Hpre Hpre'].
apply replace_newline_inline_blank in Hsep as [Hsep Hsep'].
unfold fields, PyStr.split.
rewrite !replace_newline_app, Hpre, Hsep.
rewrite !replace_newline_clean by done.
rewrite split_from_skip_blank by done.
rewrite split_from_read_field, append_nil_l by done.
rewrite split_from_end_field by done.
rewrite split_from_read_field, append_nil_l by done.
rewrite split_from_last_field; [done|done|].
by apply all_chars_replace_newline.
Qed.

End LineFormat.

(** ** Instances *)

Lemma load_vocab_sizes_witness :
size (id2token_of (file_tokens duplicate_vocab_lines) 0) = 2%nat
∧ (size (token2id_of (file_tokens duplicate_vocab_lines) 0) ≤ 2)%nat.
Proof.
destruct (load_vocab_sizes duplicate_vocab_lines 0 _ _ eq_refl)
  as (Hids & Htokens & _).
split; [exact Hids|exact Htokens].
Defined.

Lemma load_vocab_decode_encode_witness :
id2token_of (file_tokens duplicate_vocab_lines) 0 !! 1 = Some "a".
Proof.
destruct (load_vocab_decode_encode duplicate_vocab_lines 0 _ _ eq_refl)
  as [_ Hback].
apply Hback. reflexivity.
Defined.

Lemma load_vocab_blank_line_witness :
load_vocab blank_line_vocab_lines main_ids_bias = Raise ValueError.
Proof.
apply load_vocab_blank_line.
apply Exists_cons_tl, Exists_cons_hd. reflexivity.
Defined.

Lemma load_vocab_tokens_clean_witness :
clean "cat" ∧ (main_ids_bias ≤ 5)%Z.
Proof.
apply (load_vocab_tokens_clean sample_vocab_lines main_ids_bias _ _ "cat" 5 eq_refl).
reflexivity.
Defined.

Lemma load_vocab_ignores_frequency_witness :
load_vocab sample_vocab_lines main_ids_bias
= load_vocab ["the x" +:+ nl; "cat 0.5" +:+ nl] main_ids_bias.
Proof.
apply load_vocab_ignores_frequency;
  [repeat constructor | repeat constructor | reflexivity].
Defined.

Lemma vocab_size_bound_witness :
(∀ t id,
   token2id_of (file_tokens sample_vocab_lines) main_ids_bias !! t = Some id →
   id < vocab_size (token2id_of (file_tokens sample_vocab_lines) main_ids_bias)
          main_ids_bias)
↔ NoDup (file_tokens sample_vocab_lines).
Proof.
exact (vocab_size_bound sample_vocab_lines main_ids_bias _ _ eq_refl).
Defined.

Lemma encode_line_single_characters_witness :
encode_line sample_text_vocab ("ab" +:+ nl)
= encode_line long_token_vocab ("ab" +:+ nl).
Proof.
apply encode_line_single_characters.
intros c _. unfold long_token_vocab.
rewrite lookup_insert_ne; [reflexivity|discriminate].
Defined.

Lemma loaded_vocab_space_unknown_witness :
encode_line (token2id_of (file_tokens sample_vocab_lines) main_ids_bias)
  ("a b" +:+ nl) !! 1%nat = Some 2.
Proof.
apply (loaded_vocab_space_unknown sample_vocab_lines main_ids_bias _ _
         ("a b" +:+ nl) 1 " "%char eq_refl); reflexivity.
Defined.

Lemma labeled_data_generator_batch_per_row_witness :
∃ batches,
  labeled_data_generator 0 three_line_fs "d" sample_text_vocab main_label_vocab
    default_join_id default_prefix 0 = Ok batches
  ∧ length batches = 3%nat.
Proof.
assert (0 ≤ 1)%Z as Hbs by lia.
destruct (labeled_data_generator_batch_per_row 0 three_line_fs "d"
            sample_text_vocab main_label_vocab default_join_id default_prefix
            0 Hbs) as (batches & Hrun & Hlen & _).
exists batches. split; [exact Hrun|exact Hlen].
Defined.

Lemma labeled_data_generator_nothing_witness :
labeled_data_generator 0 three_line_fs "d" sample_text_vocab main_label_vocab
  default_join_id default_prefix default_batch_size = Ok [].
Proof.
assert (1 ≤ default_batch_size)%Z as Hbs by (unfold default_batch_size; lia).
apply (labeled_data_generator_nothing 0 three_line_fs "d" sample_text_vocab
         main_label_vocab default_join_id default_prefix default_batch_size Hbs).
unfold default_batch_size. simpl. lia.
Defined.

Lemma batch_lengths_count_characters_witness :
∃ text text_len label label_len batches,
  labeled_data_generator 0 three_line_fs "d" sample_text_vocab main_label_vocab
    default_join_id default_prefix 2 = Ok batches
  ∧ batches !! 0%nat = Some (text, text_len, label, label_len)
  ∧ text_len !! 1%nat = Some 3%nat ∧ label_len !! 1%nat = Some 1%nat.
Proof.
eexists _, _, _, _, _.
split; [reflexivity|]. split; [reflexivity|].
assert (1 ≤ 2)%Z as Hbs by lia.
assert (1 < Z.to_nat 2)%nat as Hi by (simpl; lia).
destruct (batch_lengths_count_characters 0 three_line_fs "d" sample_text_vocab
            main_label_vocab default_join_id default_prefix 2 _ 0 1 _ _ _ _
            Hbs eq_refl eq_refl Hi)
  as (s & t & l & Hs & Ht & Hl & Htext & Hlabel).
injection Hs as <-. injection Ht as <-. injection Hl as <-.
split; [exact Htext|exact Hlabel].
Defined.

Lemma batch_cells_in_range_witness :
∃ text text_len label label_len batches,
  labeled_data_generator 0 three_line_fs "d" sample_text_vocab main_label_vocab
    default_join_id default_prefix 2 = Ok batches
  ∧ batches !! 0%nat = Some (text, text_len, label, label_len)
  ∧ cell text 2 1 = Some 5
  ∧ (5 = 0 ∨ 5 = default_join_id ∨ 5 = default_unk_id
     ∨ ∃ key, sample_text_vocab !! key = Some 5).
Proof.
eexists _, _, _, _, _.
split; [reflexivity|]. split; [reflexivity|]. split; [reflexivity|].
eapply (batch_cells_in_range 0 three_line_fs "d" sample_text_vocab
          main_label_vocab default_join_id default_prefix 2 _ _ _ _ _ 2 1 5
          eq_refl).
- apply list_elem_of_here.
- reflexivity.
Defined.


Lemma wrapper_double_mirrors_witness :
∃ batches,
  seq2seq_generator_wrapper 0 (map pair_batch [([[4; 5]; [6]], [[2]; [3; 3]])])
    false = Ok batches
  ∧ seq2seq_generator_wrapper 0
      (map pair_batch [([[4; 5]; [6]], [[2]; [3; 3]])]) true
    = Ok (flat_map (fun b => [b; swap_batch b]) batches).
Proof.
assert (Forall both_nonempty [([[4; 5]; [6]], [[2]; [3; 3]])]) as Hpairs
  by (repeat constructor; discriminate).
destruct (wrapper_double_mirrors 0 _ Hpairs) as (batches & Hrun & _ & _ & Hdouble).
exists batches. split; [exact Hrun|exact Hdouble].
Defined.

Lemma wrapper_unpacking_error_witness :
seq2seq_generator_wrapper 0
  (map pair_batch [([[4; 5]], [[2]])] ++ [[[6]]; [[3]]; [[3]]] :: []) false
= Raise ValueError.
Proof.
apply wrapper_unpacking_error.
- repeat constructor; discriminate.
- simpl. lia.
Defined.

Lemma seq2seq_iter_as_wrapper_witness :
seq2seq_iter 0 one_minibatch sample_pairs default_batch_size true
= seq2seq_generator_wrapper 0
    (map (picked_batch sample_pairs)
       (one_minibatch (arange (length sample_pairs)) default_batch_size))
    true.
Proof.
apply seq2seq_iter_as_wrapper.
repeat constructor; try discriminate; simpl; lia.
Defined.

Lemma seq2seq_iter_empty_minibatch_witness :
seq2seq_iter 0 empty_minibatch sample_pairs default_batch_size false
= Raise ValueError.
Proof.
apply (seq2seq_iter_empty_minibatch 0 empty_minibatch sample_pairs
         default_batch_size false [] []); [reflexivity|constructor].
Defined.

Lemma batch_ids_fit_model_witness :
∃ text text_len label label_len batches,
  labeled_data_generator 0 three_line_fs "d"
    (token2id_of (file_tokens sample_vocab_lines) main_ids_bias)
    main_label_vocab default_join_id default_prefix 2 = Ok batches
  ∧ batches !! 0%nat = Some (text, text_len, label, label_len)
  ∧ cell text 2 0 = Some 3
  ∧ (3 = 0 ∨ (2 ≤ 3 < vocab_size
                        (token2id_of (file_tokens sample_vocab_lines)
                           main_ids_bias) main_ids_bias)%Z).
Proof.
eexists _, _, _, _, _.
split; [reflexivity|]. split; [reflexivity|]. split; [reflexivity|].
assert (NoDup (file_tokens sample_vocab_lines)) as Hnd
  by (apply (bool_decide_unpack _); vm_compute; exact I).
destruct (batch_ids_fit_model 0 three_line_fs sample_vocab_lines _ _ "d"
            default_prefix 2 _ _ _ _ _ 2 0 3 eq_refl Hnd eq_refl
            (list_elem_of_here _ _)) as [Htext _].
apply Htext. reflexivity.
Defined.

Lemma vocab_line_format_witness :
fields ("  " +:+ "the" +:+ String (ascii_of_nat 9) " " +:+ "10" +:+ nl)
= ["the"; "10"].
Proof.
apply vocab_line_format; try reflexivity; try (split; [discriminate|reflexivity]).
discriminate.
Defined.
